(** * Shallow embedding of the telemetry-platform scheduler core

    - [TaskQueue]: the in-process priority queue of
      src/processing/include/task_queue.h and src/processing/src/task_queue.cpp;
    - [TaskCodec]: the task envelope of src/processing/src/core/Task.cpp and
      the part of nlohmann::json it relies on;
    - [SampleCodec]: the telemetry sample codec of
      src/common/src/proto_adapter.cpp over the Protobuf wire format;
    - [Broker]: the two broker clients, src/common/src/redis_client.cpp and
      src/processing/src/core/RedisClient.cpp. *)

From Stdlib Require Import ZArith Lia List String Ascii Bool Permutation.
From Stdlib Require PrimFloat SpecFloat FloatOps.
Import ListNotations.
Import (notations) PrimFloat.
Open Scope Z_scope.

(* ------------------------------------------------------------------ *)
(** ** The in-process priority queue *)

Module TaskQueue.

(** [enum class TaskPriority : int { HIGH = 0, MEDIUM = 1, LOW = 2 }] *)
Inductive TaskPriority := HIGH | MEDIUM | LOW.

Definition priority_int (p : TaskPriority) : Z :=
  match p with HIGH => 0 | MEDIUM => 1 | LOW => 2 end.

(** [struct Task]: [created_at] is a [system_clock::time_point], kept as its
    tick count; the payload is an opaque JSON value. *)
Record Task := mkTask {
  id : string;
  priority : TaskPriority;
  created_at : Z;
  payload : string
}.

(** [TaskComparator::operator()(a, b)]: [true] when [a] is popped after [b]. *)
Definition TaskComparator (a b : Task) : bool :=
  if negb (priority_int a.(priority) =? priority_int b.(priority))
  then priority_int a.(priority) >? priority_int b.(priority)
  else created_at a >? created_at b.

(** The state guarded by [mutex_]. The [std::priority_queue] is kept as the
    multiset of its elements (a list whose order carries no meaning); its
    [top()] is any element that no other element beats under the
    comparator, which is what the standard library guarantees. *)
Record TaskQueue := mkQueue {
  queue_ : list Task;
  max_capacity_ : nat;
  shutdown_ : bool
}.

(** [TaskQueue(size_t max_capacity)] *)
Definition create (max_capacity : nat) : TaskQueue :=
  mkQueue [] max_capacity false.

Definition size (q : TaskQueue) : nat := List.length q.(queue_).
Definition empty (q : TaskQueue) : bool := Nat.eqb (size q) 0.
Definition capacity (q : TaskQueue) : nat := q.(max_capacity_).

(** [full()]: [max_capacity_ > 0 && queue_.size() >= max_capacity_] *)
Definition full (q : TaskQueue) : bool :=
  Nat.ltb 0 q.(max_capacity_) && Nat.leb q.(max_capacity_) (size q).

Definition push (q : TaskQueue) (t : Task) : TaskQueue :=
  mkQueue (t :: q.(queue_)) q.(max_capacity_) q.(shutdown_).

(** [enqueue(task, timeout)], evaluated on the state at the moment the call
    completes under the lock. Every operation is atomic under [mutex_];
    a blocking wait only decides at which moment of the interleaving the
    call completes. [wait_for] with a predicate returns the predicate's
    value, so a timed wait that ends while the queue is still full
    returns [false], as does a shutdown observed at entry or after the
    wait. *)
Definition enqueue (q : TaskQueue) (task : Task) (timeout : Z) : bool * TaskQueue :=
  if q.(shutdown_) then (false, q)
  else if Nat.ltb 0 q.(max_capacity_) then
    if timeout =? 0 then
      if Nat.leb q.(max_capacity_) (size q) then (false, q)
      else (true, push q task)
    else
      (* not_full_.wait_for(lock, timeout, shutdown_ || size < cap) *)
      let success := q.(shutdown_) || Nat.ltb (size q) q.(max_capacity_) in
      if negb success || q.(shutdown_) then (false, q)
      else (true, push q task)
  else (true, push q task).

(** [queue_.top()]: no other element is ordered before [x]. *)
Definition is_top (l : list Task) (x : Task) : bool :=
  forallb (fun y => negb (TaskComparator x y)) l.

(** [dequeue(timeout)] at the moment it completes. With [timeout = 0] an
    empty queue gives [nullopt]; with a positive timeout the wait ends with
    [nullopt] when it times out empty or sees [shutdown_] with an empty
    queue. Otherwise the top element is removed. *)
Inductive dequeue_step : TaskQueue -> Z -> option Task -> TaskQueue -> Prop :=
| deq_empty q timeout :
    q.(queue_) = [] -> dequeue_step q timeout None q
| deq_top q timeout l1 x l2 :
    q.(queue_) = l1 ++ x :: l2 ->
    is_top q.(queue_) x = true ->
    dequeue_step q timeout (Some x)
      (mkQueue (l1 ++ l2) q.(max_capacity_) q.(shutdown_)).

(** [clear()] *)
Definition clear (q : TaskQueue) : TaskQueue :=
  mkQueue [] q.(max_capacity_) q.(shutdown_).

(** [~TaskQueue()]: latch [shutdown_]. *)
Definition shutdown (q : TaskQueue) : TaskQueue :=
  mkQueue q.(queue_) q.(max_capacity_) true.

Inductive op :=
| Enq (t : Task) (timeout : Z)
| Deq (timeout : Z)
| Clear
| Shutdown.

(** A sequence of operations, in the order the lock serialises them; the
    third index collects the successfully dequeued tasks in pop order. *)
Inductive exec : TaskQueue -> list op -> list Task -> TaskQueue -> Prop :=
| exec_nil q : exec q [] [] q
| exec_enq q t to q1 ops popped q' b :
    enqueue q t to = (b, q1) ->
    exec q1 ops popped q' ->
    exec q (Enq t to :: ops) popped q'
| exec_deq_none q to ops popped q' :
    dequeue_step q to None q ->
    exec q ops popped q' ->
    exec q (Deq to :: ops) popped q'
| exec_deq_some q to x q1 ops popped q' :
    dequeue_step q to (Some x) q1 ->
    exec q1 ops popped q' ->
    exec q (Deq to :: ops) (x :: popped) q'
| exec_clear q ops popped q' :
    exec (clear q) ops popped q' ->
    exec q (Clear :: ops) popped q'
| exec_shutdown q ops popped q' :
    exec (shutdown q) ops popped q' ->
    exec q (Shutdown :: ops) popped q'.

(** Dequeue order: [a] may be popped no later than [b]. *)
Definition ordered_before (a b : Task) : Prop :=
  priority_int a.(priority) < priority_int b.(priority) \/
  (priority_int a.(priority) = priority_int b.(priority) /\
   created_at a <= created_at b).

(** The capacity bound of a queue. *)
Definition cap_inv (q : TaskQueue) : Prop :=
  (0 < max_capacity_ q)%nat -> (size q <= max_capacity_ q)%nat.

(** Operations that only dequeue. *)
Definition is_deq (o : op) : Prop :=
  match o with Deq _ => True | _ => False end.

(** Sample tasks. *)
Definition task_l1 : Task := mkTask "l1" LOW 0 ""%string.
Definition task_h1 : Task := mkTask "h1" HIGH 1 ""%string.
Definition task_a : Task := mkTask "a" HIGH 5 ""%string.
Definition task_b : Task := mkTask "b" HIGH 3 ""%string.

(** [peek()]: [nullopt] on an empty queue, otherwise [queue_.top()], left
    in place. *)
Inductive peek_step : TaskQueue -> option Task -> Prop :=
| peek_empty q : q.(queue_) = [] -> peek_step q None
| peek_top q x :
    In x q.(queue_) -> is_top q.(queue_) x = true -> peek_step q (Some x).

(** The tasks a sequence of operations passes to [enqueue]. *)
Fixpoint enq_tasks (ops : list op) : list Task :=
  match ops with
  | [] => []
  | Enq t _ :: rest => t :: enq_tasks rest
  | _ :: rest => enq_tasks rest
  end.

(** A producer calling [enqueue(task, timeout)] for each task in turn,
    collecting the results. *)
Fixpoint enqueue_all (q : TaskQueue) (ts : list Task) (timeout : Z)
    : list bool * TaskQueue :=
  match ts with
  | [] => ([], q)
  | t :: rest =>
      let (b, q1) := enqueue q t timeout in
      let (bs, q2) := enqueue_all q1 rest timeout in
      (b :: bs, q2)
  end.

Definition TaskPriority_eq_dec (p1 p2 : TaskPriority) : {p1 = p2} + {p1 <> p2}.
Proof. decide equality. Defined.

Definition Task_eq_dec (a b : Task) : {a = b} + {a <> b}.
Proof.
  decide equality; first [apply string_dec | apply Z.eq_dec | apply TaskPriority_eq_dec].
Defined.

(** How many copies of [x] a list of tasks holds. *)
Definition occ (l : list Task) (x : Task) : nat := count_occ Task_eq_dec l x.

End TaskQueue.

(* ------------------------------------------------------------------ *)
(** ** The task envelope *)

Module TaskCodec.

Local Open Scope string_scope.

(** The part of [nlohmann::json] the envelope uses. Numbers are the integer
    kinds ([number_integer], [number_unsigned]) and [number_float], a
    [double]; objects are association lists with the [std::map]'s keys. *)
#[warnings="-register-all"]
Inductive json :=
| JNull
| JBool (b : bool)
| JInt (z : Z)
| JFloat (f : PrimFloat.float)
| JString (s : string)
| JArray (l : list json)
| JObject (fields : list (string * json)).

(** [nlohmann::json::type_error] with its id (302: wrong type for [get],
    306: [value()] on a non-object). [undefined_cast]: a [static_cast<int>]
    of a [double] whose truncation an [int] cannot hold (or of an infinity
    or a NaN), which is undefined behaviour in C++; the model stops there. *)
Inductive exn := type_error (code : Z) | undefined_cast.

Inductive result (A : Type) :=
| Ok (a : A)
| Throw (e : exn).
Arguments Ok {A} a.
Arguments Throw {A} e.

Definition bind {A B} (r : result A) (k : A -> result B) : result B :=
  match r with Ok a => k a | Throw e => Throw e end.
Notation "x <- r ;; k" := (bind r (fun x => k))
  (at level 61, r at next level, right associativity).

(** [static_cast<int>] of a 64-bit JSON integer: wrap to 32 bits. *)
Definition to_int32 (z : Z) : Z := (z + 2 ^ 31) mod 2 ^ 32 - 2 ^ 31.

(** [get<std::string>()] *)
Definition get_string (j : json) : result string :=
  match j with JString s => Ok s | _ => Throw (type_error 302) end.

(** The value of a [double] truncated toward zero, as [static_cast] to an
    integer type computes it; [None] for the infinities and NaN. *)
Definition trunc_float (f : PrimFloat.float) : option Z :=
  match FloatOps.Prim2SF f with
  | SpecFloat.S754_zero _ => Some 0
  | SpecFloat.S754_finite s m e =>
      let mag := if Z.leb 0 e then Z.pos m * 2 ^ e else Z.pos m / 2 ^ (- e) in
      Some (if s then - mag else mag)
  | _ => None
  end.

Definition int_range_b (z : Z) : bool := Z.leb (- 2 ^ 31) z && Z.ltb z (2 ^ 31).

(** [static_cast<int>] of a [double], where it is defined. *)
Definition float_to_int (f : PrimFloat.float) : option Z :=
  match trunc_float f with
  | Some z => if int_range_b z then Some z else None
  | None => None
  end.
Arguments float_to_int : simpl never.

(** [get<int>()]: integers, floating-point numbers and booleans convert
    (nlohmann's [from_json] for arithmetic types applies [static_cast]),
    anything else throws. *)
Definition get_int (j : json) : result Z :=
  match j with
  | JInt z => Ok (to_int32 z)
  | JFloat f =>
      match float_to_int f with
      | Some z => Ok z
      | None => Throw undefined_cast
      end
  | JBool b => Ok (if b then 1 else 0)
  | _ => Throw (type_error 302)
  end.

Fixpoint find (key : string) (fields : list (string * json)) : option json :=
  match fields with
  | [] => None
  | (k, v) :: rest => if String.eqb k key then Some v else find key rest
  end.

(** [j.value(key, default)]: the stored value converted to the default's
    type if the key is present, the default otherwise; type error 306 on
    a non-object. *)
Definition value {A} (get : json -> result A) (j : json) (key : string)
    (default : A) : result A :=
  match j with
  | JObject fields =>
      match find key fields with
      | Some v => get v
      | None => Ok default
      end
  | _ => Throw (type_error 306)
  end.

(** [enum class Priority { HIGH = 0, NORMAL = 1, LOW = 2 }] and
    [enum class TaskStatus { PENDING, ..., CANCELLED }]. An enum object
    holds any value of its underlying [int], so both fields are kept as
    that integer. *)
Definition HIGH : Z := 0.
Definition NORMAL : Z := 1.
Definition LOW : Z := 2.
Definition PENDING : Z := 0.
Definition RUNNING : Z := 1.
Definition COMPLETED : Z := 2.
Definition FAILED : Z := 3.
Definition CANCELLED : Z := 4.

(** [struct Task] of Task.h; the two time points are nanosecond tick
    counts of [system_clock] (libstdc++). *)
Record Task := mkTask {
  id : string;
  type : string;
  payload : string;
  priority : Z;
  status : Z;
  retry_count : Z;
  max_retries : Z;
  created_at : Z;
  updated_at : Z;
  worker_id : string
}.

Definition ticks_per_second : Z := 1000000000.

(** [system_clock::to_time_t]: [duration_cast<seconds>], which truncates
    toward zero. *)
Definition to_time_t (t : Z) : Z := Z.quot t ticks_per_second.

(** [system_clock::from_time_t] *)
Definition from_time_t (s : Z) : Z := s * ticks_per_second.

(** [Task::to_json] *)
Definition to_json (t : Task) : json :=
  JObject [
    ("id", JString t.(id));
    ("type", JString t.(type));
    ("payload", JString t.(payload));
    ("priority", JInt t.(priority));
    ("status", JInt t.(status));
    ("retry_count", JInt t.(retry_count));
    ("max_retries", JInt t.(max_retries));
    ("created_at", JInt (to_time_t t.(created_at)));
    ("updated_at", JInt (to_time_t t.(updated_at)));
    ("worker_id", JString t.(worker_id))
  ]%string.

(** [Task::from_json] *)
Definition from_json (j : json) : result Task :=
  id <- value get_string j "id" "" ;;
  type <- value get_string j "type" "" ;;
  payload <- value get_string j "payload" "" ;;
  priority <- value get_int j "priority" 1 ;;
  status <- value get_int j "status" 0 ;;
  retry_count <- value get_int j "retry_count" 0 ;;
  max_retries <- value get_int j "max_retries" 3 ;;
  created_timestamp <- value get_int j "created_at" 0 ;;
  updated_timestamp <- value get_int j "updated_at" 0 ;;
  worker_id <- value get_string j "worker_id" "" ;;
  Ok (mkTask id type payload priority status retry_count max_retries
        (from_time_t created_timestamp) (from_time_t updated_timestamp)
        worker_id).

(** The C++ [int] range. *)
Definition int_range (z : Z) : Prop := - 2 ^ 31 <= z < 2 ^ 31.

(** The keys [from_json] reads. *)
Definition envelope_keys : list string :=
  ["id"; "type"; "payload"; "priority"; "status"; "retry_count";
   "max_retries"; "created_at"; "updated_at"; "worker_id"]%string.

(** The task [from_json] builds from an object without any of its keys. *)
Definition default_task : Task :=
  mkTask "" "" "" 1 0 0 3 0 0 ""%string.

(** The fields of a task the C++ types can carry through the envelope:
    [int] fields, and second counts the [int] read-back can hold. *)
Definition wf_task (t : Task) : Prop :=
  int_range t.(priority) /\ int_range t.(status) /\
  int_range t.(retry_count) /\ int_range t.(max_retries) /\
  int_range (to_time_t t.(created_at)) /\ int_range (to_time_t t.(updated_at)).

(** Kinds of JSON value each [get] accepts. *)
Definition string_like (j : json) : bool :=
  match j with JString _ => true | _ => false end.
Definition int_like (j : json) : bool :=
  match j with
  | JInt _ | JBool _ => true
  | JFloat f => match float_to_int f with Some _ => true | None => false end
  | _ => false
  end.

Definition string_keys : list string := ["id"; "type"; "payload"; "worker_id"].
Definition int_keys : list string :=
  ["priority"; "status"; "retry_count"; "max_retries"; "created_at"; "updated_at"].

(** Every key [from_json] reads holds a value of the kind it expects. *)
Definition well_typed_fields (fields : list (string * json)) : bool :=
  forallb (fun k => match find k fields with
                    | Some v => string_like v | None => true end) string_keys &&
  forallb (fun k => match find k fields with
                    | Some v => int_like v | None => true end) int_keys.

(** A task created at a time with a sub-second part. *)
Definition sample_task : Task :=
  mkTask "6f1c2a9e-0b7d-4e21-9a3f-1c2d3e4f5a6b" "compute" "{}" NORMAL PENDING 0 3
    1730000000123456000 1730000000123456000 "".

(** The value under [k], if any, is of the kind [ok] accepts. *)
Definition present_ok (ok : json -> bool) (fields : list (string * json))
    (k : string) : bool :=
  match find k fields with Some v => ok v | None => true end.


(** [Task::create(type, payload, priority, max_retries)]: [uuid] is what
    [generate_uuid()] returned and [now] what [system_clock::now()] read. *)
Definition create (uuid : string) (now : Z) (type payload : string)
    (priority max_retries : Z) : Task :=
  mkTask uuid type payload priority PENDING 0 max_retries now now "".

End TaskCodec.

(* ------------------------------------------------------------------ *)
(** ** UUID generation *)

(** [generate_uuid()] of src/processing/src/core/Task.cpp and of
    src/common/src/uuid_generator.cpp (the two print the same characters:
    the [setfill('0')] of the latter has no effect without a width). *)
Module Uuid.

Local Open Scope string_scope.

(** One hexadecimal digit as [std::hex] prints it (lowercase). *)
Definition hex_digit (d : Z) : ascii :=
  if Z.ltb d 10 then ascii_of_nat (48 + Z.to_nat d)
  else ascii_of_nat (87 + Z.to_nat d).

(** [ss << n] under [std::hex] for an [int] [n]: the digits of [n] read as
    an unsigned 32-bit value, most significant first, no leading zeros. *)
Fixpoint hex_rev (fuel : nat) (n : Z) (acc : string) : string :=
  match fuel with
  | O => acc
  | S f =>
      let acc' := String (hex_digit (n mod 16)) acc in
      if Z.ltb n 16 then acc' else hex_rev f (n / 16) acc'
  end.

Definition to_hex (n : Z) : string := hex_rev 8 (n mod 2 ^ 32) "".

(** [count] values printed one after another, the [start]-th draw first. *)
Fixpoint hexes (draw : nat -> Z) (start count : nat) : string :=
  match count with
  | O => ""
  | S c => to_hex (draw start) ++ hexes draw (S start) c
  end.

(** [generate_uuid()]: [draw i] is the value the [i]-th call of a
    distribution returned ([dis] in [0, 15], except call 15, which is
    [dis2] in [8, 11]). *)
Definition generate_uuid (draw : nat -> Z) : string :=
  hexes draw 0 8 ++ "-" ++ hexes draw 8 4 ++ "-4" ++ hexes draw 12 3 ++ "-" ++
  to_hex (draw 15%nat) ++ hexes draw 16 3 ++ "-" ++ hexes draw 19 12.

(** Lowercase hexadecimal digits. *)
Definition is_hex_lower (c : ascii) : bool :=
  existsb (Ascii.eqb c) (list_ascii_of_string "0123456789abcdef").

End Uuid.

(* ------------------------------------------------------------------ *)
(** ** The telemetry sample codec *)

Module SampleCodec.

(** Bytes of a [std::string], each in [0, 256). *)
Definition bytes := list Z.






(** Modelled from the spec: the Protobuf wire format of the generated
    telemetry.pb.h/.cc (the schema and generated code are not part of
    src/). Schema: [timestamp_us] int64 = 1, [value] double = 2, [unit]
    string = 3, [sequence_id] uint32 = 4 (proto3: fields holding their
    default value are not written, and a string field must hold UTF-8). *)

(** Base-128 varint, least significant group first. *)
Fixpoint varint_bytes (fuel : nat) (n : Z) : bytes :=
  match fuel with
  | O => []
  | S f => if n <? 128 then [n] else (n mod 128 + 128) :: varint_bytes f (n / 128)
  end.

Definition encode_varint (n : Z) : bytes := varint_bytes 10 n.


















End SampleCodec.

(* ------------------------------------------------------------------ *)
(** ** The broker clients *)

Module Broker.

Local Open Scope string_scope.

(** The outcome of one redis++ call: its value, or a thrown
    [sw::redis::Error] (transport error, timeout, server error). *)
Inductive reply (A : Type) :=
| Value (a : A)
| RedisError.
Arguments Value {A} a.
Arguments RedisError {A}.

Definition to_int32 (z : Z) : Z := (z + 2 ^ 31) mod 2 ^ 32 - 2 ^ 31.

(** The shape every method of [telemetry_common::RedisClient] has:
    [if (!redis_) return fallback; try { return ok(redis_->cmd(...)); }
     catch (const sw::redis::Error&) { return fallback; }]. [redis_] is
    [true] when the [unique_ptr] holds a connection (it is null only in a
    moved-from client); [raw] is what the redis++ call produced. *)
Definition guarded {A B} (redis_ : bool) (raw : reply A) (ok : A -> B)
    (fallback : B) : B :=
  if negb redis_ then fallback
  else match raw with
       | Value a => ok a
       | RedisError => fallback
       end.

(** The methods of src/common/src/redis_client.cpp. *)
Definition ping (redis_ : bool) (raw : reply string) : bool :=
  guarded redis_ raw (fun response => String.eqb response "PONG") false.
Definition set (redis_ : bool) (raw : reply bool) : bool :=
  guarded redis_ raw (fun b => b) false.
Definition get (redis_ : bool) (raw : reply (option string)) : option string :=
  guarded redis_ raw (fun v => match v with Some s => Some s | None => None end) None.
Definition del (redis_ : bool) (raw : reply Z) : Z :=
  guarded redis_ raw to_int32 0.
Definition exists_ (redis_ : bool) (raw : reply Z) : bool :=
  guarded redis_ raw (fun n => Z.ltb 0 n) false.
Definition expire (redis_ : bool) (raw : reply bool) : bool :=
  guarded redis_ raw (fun b => b) false.
Definition ttl (redis_ : bool) (raw : reply Z) : Z :=
  guarded redis_ raw to_int32 (-2).
Definition lpush (redis_ : bool) (raw : reply Z) : Z :=
  guarded redis_ raw (fun n => n) 0.
Definition rpop (redis_ : bool) (raw : reply (option string)) : option string :=
  guarded redis_ raw (fun v => v) None.
(** [brpop] replies with the (key, value) pair; the value is returned. *)
Definition brpop (redis_ : bool) (raw : reply (option (string * string)))
    : option string :=
  guarded redis_ raw (fun v => match v with Some kv => Some (snd kv) | None => None end) None.
Definition llen (redis_ : bool) (raw : reply Z) : Z :=
  guarded redis_ raw (fun n => n) 0.
Definition lrange (redis_ : bool) (raw : reply (list string)) : list string :=
  guarded redis_ raw (fun l => l) [].
Definition sadd (redis_ : bool) (raw : reply Z) : Z :=
  guarded redis_ raw (fun n => n) 0.
Definition sismember (redis_ : bool) (raw : reply bool) : bool :=
  guarded redis_ raw (fun b => b) false.
Definition srem (redis_ : bool) (raw : reply Z) : Z :=
  guarded redis_ raw (fun n => n) 0.
Definition zadd (redis_ : bool) (raw : reply Z) : Z :=
  guarded redis_ raw (fun n => n) 0.
(** [zpopmax] replies with the (member, score) pair; the member is
    returned ("Return member, not score"). *)
Definition zpopmax (redis_ : bool) (raw : reply (option (string * PrimFloat.float)))
    : option string :=
  guarded redis_ raw (fun v => match v with Some ms => Some (fst ms) | None => None end) None.
Definition zcard (redis_ : bool) (raw : reply Z) : Z :=
  guarded redis_ raw (fun n => n) 0.
Definition incr (redis_ : bool) (raw : reply Z) : Z :=
  guarded redis_ raw (fun n => n) 0.
Definition decr (redis_ : bool) (raw : reply Z) : Z :=
  guarded redis_ raw (fun n => n) 0.
Definition info (redis_ : bool) (raw : reply string) : string :=
  guarded redis_ raw (fun s => s) "".

(** A method returns [d] whenever it cannot complete: no connection, or
    the redis++ call threw. *)
Definition falls_back_to {A B} (m : bool -> reply A -> B) (d : B) : Prop :=
  (forall raw, m false raw = d) /\ m true RedisError = d.

(** The Redis server the client talks to (an external service): its sorted
    sets of [double] scores, with [ZADD] upserting a member and [ZPOPMAX]
    removing and replying the member of highest score together with that
    score, as redis++ hands it back in [std::pair<std::string, double>]
    (Redis prints the score with 17 significant digits, which [stod] reads
    back exactly). *)
Definition zset := list (string * PrimFloat.float).

(** The text of a [double] argument: redis++ formats numeric arguments with
    [std::to_string], that is printf's "%f": the exact binary value rounded
    to six decimals, to nearest with ties to even, kept here as its sign and
    the numerator over 10^6, or "inf" / "nan". *)
Inductive decimal :=
| Dec (neg : bool) (n : Z)
| DInf (neg : bool)
| DNaN.

Definition round_half_even (a b : Z) : Z :=
  let q := a / b in
  let r := a mod b in
  if Z.ltb (2 * r) b then q
  else if Z.ltb b (2 * r) then q + 1
  else if Z.even q then q else q + 1.

(** [std::to_string(double)] *)
Definition to_string_double (x : PrimFloat.float) : decimal :=
  match FloatOps.Prim2SF x with
  | SpecFloat.S754_zero sg => Dec sg 0
  | SpecFloat.S754_infinity sg => DInf sg
  | SpecFloat.S754_nan => DNaN
  | SpecFloat.S754_finite sg m e =>
      Dec sg (if Z.leb 0 e then Z.pos m * 2 ^ e * 10 ^ 6
              else round_half_even (Z.pos m * 10 ^ 6) (2 ^ (- e)))
  end.

(** Redis reading a score argument: [strtod] (the nearest [double]), and
    the error "value is not a valid float" when that is a NaN. *)
Definition redis_score (d : decimal) : option PrimFloat.float :=
  match d with
  | DNaN => None
  | DInf sg => Some (FloatOps.SF2Prim (SpecFloat.S754_infinity sg))
  | Dec sg n =>
      match n with
      | Zpos q =>
          Some (FloatOps.SF2Prim
                  (SpecFloat.SFdiv 53 1024 (SpecFloat.S754_finite sg q 0)
                     (SpecFloat.S754_finite false 1000000 0)))
      | _ => Some (FloatOps.SF2Prim (SpecFloat.S754_zero sg))
      end
  end.

Record Server := mkServer {
  reachable : bool;
  zsets : list (string * zset)
}.

Fixpoint lookup {V} (k : string) (m : list (string * V)) : option V :=
  match m with
  | [] => None
  | (k', v) :: rest => if String.eqb k' k then Some v else lookup k rest
  end.

Fixpoint update {V} (k : string) (v : V) (m : list (string * V)) : list (string * V) :=
  match m with
  | [] => [(k, v)]
  | (k', v') :: rest =>
      if String.eqb k' k then (k, v) :: rest else (k', v') :: update k v rest
  end.

Fixpoint remove {V} (k : string) (m : list (string * V)) : list (string * V) :=
  match m with
  | [] => []
  | (k', v') :: rest => if String.eqb k' k then rest else (k', v') :: remove k rest
  end.

Definition zset_of (srv : Server) (key : string) : zset :=
  match lookup key srv.(zsets) with Some z => z | None => [] end.

(** [ZADD key score member], the score given as its text: the number of
    members added, or an error for a score that is not a number. *)
Definition server_zadd (srv : Server) (key member : string) (arg : decimal)
    : reply Z * Server :=
  if negb srv.(reachable) then (RedisError, srv)
  else
    match redis_score arg with
    | None => (RedisError, srv)
    | Some score =>
        let z := zset_of srv key in
        let added := match lookup member z with Some _ => 0 | None => 1 end in
        (Value added,
         mkServer srv.(reachable) (update key (update member score z) srv.(zsets)))
    end.

Fixpoint max_entry (best : string * PrimFloat.float) (z : zset) : string * PrimFloat.float :=
  match z with
  | [] => best
  | (m, s) :: rest =>
      if PrimFloat.ltb (snd best) s ||
         (PrimFloat.eqb (snd best) s && String.ltb (fst best) m)
      then max_entry (m, s) rest
      else max_entry best rest
  end.

(** [ZPOPMAX key] *)
Definition server_zpopmax (srv : Server) (key : string)
    : reply (option (string * PrimFloat.float)) * Server :=
  if negb srv.(reachable) then (RedisError, srv)
  else
    match zset_of srv key with
    | [] => (Value None, srv)
    | e :: rest =>
        let top := max_entry e rest in
        (Value (Some top),
         mkServer srv.(reachable)
           (update key (remove (fst top) (e :: rest)) srv.(zsets)))
    end.

(** [RedisClient::zadd(key, member, score)] and [RedisClient::zpopmax(key)]
    of a connected client, against the server. *)
Definition client_zadd (srv : Server) (key member : string) (score : PrimFloat.float)
    : Z * Server :=
  let (raw, srv') := server_zadd srv key member (to_string_double score) in
  (zadd true raw, srv').

Definition client_zpopmax (srv : Server) (key : string) : option string * Server :=
  let (raw, srv') := server_zpopmax srv key in (zpopmax true raw, srv').

(** [telemetry_processor::RedisClient] (src/processing/src/core/RedisClient.cpp):
    a [connected_] flag in front of an in-memory store that never fails. *)
Record Impl := mkImpl {
  kv_store : list (string * string);
  lists : list (string * list string)
}.

Record ProcClient := mkProcClient {
  host_ : string;
  port_ : Z;
  connected_ : bool;
  impl_ : Impl
}.

Definition proc_create (host : string) (port : Z) : ProcClient :=
  mkProcClient host port false (mkImpl [] []).

Definition with_impl (c : ProcClient) (i : Impl) : ProcClient :=
  mkProcClient c.(host_) c.(port_) c.(connected_) i.

Definition proc_connect (c : ProcClient) : bool * ProcClient :=
  (true, mkProcClient c.(host_) c.(port_) true c.(impl_)).

Definition proc_ping (c : ProcClient) : string :=
  if negb c.(connected_) then "" else "PONG".

Definition proc_rpush (c : ProcClient) (key value : string) : bool * ProcClient :=
  if negb c.(connected_) then (false, c)
  else
    let l := match lookup key c.(impl_).(lists) with Some l => l | None => [] end in
    (true, with_impl c (mkImpl c.(impl_).(kv_store)
                          (update key (List.app l [value]) c.(impl_).(lists)))).

Definition proc_blpop (c : ProcClient) (key : string) (timeout_seconds : Z)
    : option string * ProcClient :=
  if negb c.(connected_) then (None, c)
  else
    match lookup key c.(impl_).(lists) with
    | None | Some [] => (None, c)
    | Some (v :: rest) =>
        (Some v, with_impl c (mkImpl c.(impl_).(kv_store)
                                (update key rest c.(impl_).(lists))))
    end.

Definition proc_set (c : ProcClient) (key value : string) : bool * ProcClient :=
  if negb c.(connected_) then (false, c)
  else (true, with_impl c (mkImpl (update key value c.(impl_).(kv_store))
                             c.(impl_).(lists))).

Definition proc_get (c : ProcClient) (key : string) : option string :=
  if negb c.(connected_) then None else lookup key c.(impl_).(kv_store).

Definition proc_del (c : ProcClient) (key : string) : bool * ProcClient :=
  if negb c.(connected_) then (false, c)
  else
    let in_kv := match lookup key c.(impl_).(kv_store) with Some _ => true | None => false end in
    let in_lists := match lookup key c.(impl_).(lists) with Some _ => true | None => false end in
    (in_kv || in_lists,
     with_impl c (mkImpl (remove key c.(impl_).(kv_store)) (remove key c.(impl_).(lists)))).

Definition proc_llen (c : ProcClient) (key : string) : Z :=
  if negb c.(connected_) then -1
  else match lookup key c.(impl_).(lists) with
       | None => 0
       | Some l => Z.of_nat (List.length l)
       end.


(** The client states a program reaches through the public methods of
    [telemetry_processor::RedisClient], starting from the constructor. *)
Inductive proc_reachable : ProcClient -> Prop :=
| reach_create h p : proc_reachable (proc_create h p)
| reach_connect c : proc_reachable c -> proc_reachable (snd (proc_connect c))
| reach_rpush c k v : proc_reachable c -> proc_reachable (snd (proc_rpush c k v))
| reach_blpop c k t : proc_reachable c -> proc_reachable (snd (proc_blpop c k t))
| reach_set c k v : proc_reachable c -> proc_reachable (snd (proc_set c k v))
| reach_del c k : proc_reachable c -> proc_reachable (snd (proc_del c k)).

(** The contents of the list stored under [key] (empty when absent). *)
Definition proc_list (c : ProcClient) (key : string) : list string :=
  match lookup key c.(impl_).(lists) with Some l => l | None => [] end.

(** [rpush(key, v)] for each [v] in turn. *)
Fixpoint proc_rpush_all (c : ProcClient) (key : string) (vs : list string)
    : ProcClient :=
  match vs with
  | [] => c
  | v :: rest => proc_rpush_all (snd (proc_rpush c key v)) key rest
  end.

(** [n] calls of [blpop(key)], collecting the results. *)
Fixpoint proc_blpop_n (c : ProcClient) (key : string) (n : nat)
    : list (option string) * ProcClient :=
  match n with
  | O => ([], c)
  | S m =>
      let (r, c1) := proc_blpop c key 0 in
      let (rs, c2) := proc_blpop_n c1 key m in
      (r :: rs, c2)
  end.

End Broker.

(* ================================================================== *)
(** * Properties of the priority queue *)

Section TaskQueueFacts.
Import TaskQueue.

Lemma enqueue_cap_inv q t to b q' :
  enqueue q t to = (b, q') -> cap_inv q -> cap_inv q'.
Proof.
  unfold enqueue, cap_inv, size, push; intros He Hinv.
  destruct (shutdown_ q) eqn:Hs; [inversion He; subst; exact Hinv|].
  destruct (Nat.ltb_spec 0 (max_capacity_ q)) as [Hc|Hc].
  - destruct (to =? 0).
    + destruct (Nat.leb_spec (max_capacity_ q) (List.length (queue_ q))).
      * inversion He; subst; exact Hinv.
      * inversion He; subst; simpl; lia.
    + simpl in He.
      destruct (Nat.ltb_spec (List.length (queue_ q)) (max_capacity_ q));
        simpl in He; inversion He; subst; simpl; auto; lia.
  - inversion He; subst; simpl; lia.
Qed.

Lemma dequeue_queue_incl q to x q' :
  dequeue_step q to (Some x) q' ->
  In x (queue_ q) /\ (forall y, In y (queue_ q') -> In y (queue_ q)) /\
  max_capacity_ q' = max_capacity_ q /\
  S (List.length (queue_ q')) = List.length (queue_ q).
Proof.
  intros H; inversion H; subst; simpl.
  match goal with Hq : queue_ _ = _ |- _ => rewrite Hq end.
  split; [|split; [|split]].
  - apply in_or_app; right; left; reflexivity.
  - intros y Hy; apply in_app_or in Hy; apply in_or_app.
    destruct Hy; [left; assumption | right; right; assumption].
  - reflexivity.
  - rewrite !length_app; simpl; lia.
Qed.

Lemma dequeue_cap_inv q to r q' :
  dequeue_step q to r q' -> cap_inv q -> cap_inv q'.
Proof.
  intros H Hinv.
  destruct r as [x|]; [|inversion H; subst; exact Hinv].
  destruct (dequeue_queue_incl _ _ _ _ H) as (_ & _ & Hc & Hl).
  unfold cap_inv, size in *; rewrite Hc; intros Hpos.
  specialize (Hinv Hpos); lia.
Qed.

Lemma exec_cap_inv q ops popped q' :
  exec q ops popped q' -> cap_inv q -> cap_inv q'.
Proof.
  induction 1; intros Hinv.
  - exact Hinv.
  - eauto using enqueue_cap_inv.
  - auto.
  - eauto using dequeue_cap_inv.
  - apply IHexec; unfold cap_inv, clear, size; simpl; lia.
  - apply IHexec; unfold cap_inv, shutdown, size in *; simpl; exact Hinv.
Qed.

Lemma comparator_false_ordered a b :
  TaskComparator a b = false -> ordered_before a b.
Proof.
  unfold TaskComparator, ordered_before.
  destruct (Z.eqb_spec (priority_int (priority a)) (priority_int (priority b))) as [He|Hn];
    simpl; intros H.
  - right; split; [exact He|]. rewrite Z.gtb_ltb in H. apply Z.ltb_ge in H. lia.
  - left. rewrite Z.gtb_ltb in H. apply Z.ltb_ge in H. lia.
Qed.

Lemma dequeue_top_ordered q to a q' :
  dequeue_step q to (Some a) q' ->
  forall b, In b (queue_ q) -> ordered_before a b.
Proof.
  intros H b Hb; inversion H; subst.
  apply comparator_false_ordered.
  match goal with Ht : is_top _ _ = true |- _ =>
    unfold is_top in Ht; rewrite forallb_forall in Ht; specialize (Ht b Hb) end.
  destruct (TaskComparator a b); [discriminate | reflexivity].
Qed.

Lemma exec_deq_popped_incl q ops popped q' :
  exec q ops popped q' -> Forall is_deq ops ->
  forall y, In y popped -> In y (queue_ q).
Proof.
  induction 1; intros Hops y Hy; inversion Hops; subst;
    try contradiction; try (simpl in Hy; contradiction); eauto.
  destruct (dequeue_queue_incl _ _ _ _ H) as (Hx & Hsub & _).
  destruct Hy as [<-|Hy]; [exact Hx|].
  apply Hsub; eauto.
Qed.

End TaskQueueFacts.

Section TaskQueueClaims.
Import TaskQueue.

(** C4: for a queue with a positive capacity, every state reached from the
    constructor by any sequence of enqueue, dequeue, clear and shutdown
    operations has [size() <= capacity()]. *)
Theorem task_queue_size_le_capacity (cap : nat) ops popped q :
  exec (create cap) ops popped q ->
  (0 < capacity q)%nat ->
  (size q <= capacity q)%nat.
Proof.
  intros Hexec Hpos.
  apply (exec_cap_inv _ _ _ _ Hexec); [|exact Hpos].
  unfold cap_inv, create, size; simpl; lia.
Qed.

(** C10: with [max_capacity = 0], [full()] is [false], and an enqueue on a
    queue that is not shut down succeeds and adds the task, whatever the
    timeout and the current size. *)
Theorem unbounded_queue_never_full q t timeout :
  max_capacity_ q = 0%nat ->
  shutdown_ q = false ->
  full q = false /\ enqueue q t timeout = (true, push q t).
Proof.
  intros Hc Hs; unfold full, enqueue; rewrite Hc, Hs; simpl; split; reflexivity.
Qed.

(** C1 (as stated, refuted): with enqueues between dequeues, a LOW task
    popped from a queue holding only it is followed by a HIGH task enqueued
    afterwards, so a task popped earlier can have a lower priority. *)
Lemma interleaved_pops_not_ordered :
  exec (create 10) [Enq task_l1 0; Deq 0; Enq task_h1 0; Deq 0]
    [task_l1; task_h1] (create 10) /\
  ~ ordered_before task_l1 task_h1.
Proof.
  split.
  - eapply exec_enq; [reflexivity|].
    eapply exec_deq_some.
    { apply (deq_top _ _ [] task_l1 []); reflexivity. }
    eapply exec_enq; [reflexivity|].
    eapply exec_deq_some.
    { apply (deq_top _ _ [] task_h1 []); reflexivity. }
    apply exec_nil.
  - unfold ordered_before; simpl; lia.
Qed.

(** C1 (amended): each successful dequeue returns a task ordered by
    (priority, created_at) before or together with every task still in the
    queue; so over a run of dequeues with no enqueue in between, every task
    popped earlier is ordered before or together with every task popped
    later. *)
Theorem dequeue_order_by_priority_then_created_at q ops popped q' :
  exec q ops popped q' ->
  Forall is_deq ops ->
  (forall to a q1, dequeue_step q to (Some a) q1 ->
     forall b, In b (queue_ q1) -> ordered_before a b) /\
  ForallOrdPairs ordered_before popped.
Proof.
  intros Hexec Hops; split.
  - intros to a q1 Hd b Hb.
    apply (dequeue_top_ordered _ _ _ _ Hd).
    apply (dequeue_queue_incl _ _ _ _ Hd); exact Hb.
  - induction Hexec; inversion Hops; subst; try contradiction.
    + constructor.
    + auto.
    + constructor; [|auto].
      apply Forall_forall; intros y Hy.
      apply (dequeue_top_ordered _ _ _ _ H).
      apply (dequeue_queue_incl _ _ _ _ H).
      eapply exec_deq_popped_incl; eauto.
Qed.

(** C5 (as stated, refuted): the queue does not stamp an enqueue time.
    Task [a] (HIGH, created_at 5) is enqueued before task [b] (HIGH,
    created_at 3), yet every run pops [b] first: the tiebreaker is the
    [created_at] each task carries. *)
Lemma fifo_tiebreak_uses_created_at :
  exec (create 10) [Enq task_a 0; Enq task_b 0; Deq 0] [task_b]
    (mkQueue [task_a] 10 false) /\
  (forall popped q, exec (create 10) [Enq task_a 0; Enq task_b 0; Deq 0] popped q ->
     popped = [task_b]).
Proof.
  split.
  - eapply exec_enq; [reflexivity|].
    eapply exec_enq; [reflexivity|].
    eapply exec_deq_some.
    { apply (deq_top _ _ [] task_b [task_a]); reflexivity. }
    apply exec_nil.
  - intros popped q H.
    inversion H as [|? ? ? q1 ? ? ? ? He1 Hx1| | | |]; subst; clear H.
    cbv in He1; injection He1 as <- <-.
    inversion Hx1 as [|? ? ? q2 ? ? ? ? He2 Hx2| | | |]; subst; clear Hx1.
    cbv in He2; injection He2 as <- <-.
    inversion Hx2; subst; clear Hx2.
    + match goal with Hd : dequeue_step _ _ None _ |- _ =>
        inversion Hd as [? ? Hq|]; discriminate Hq end.
    + match goal with Hx3 : exec _ [] _ _ |- _ => inversion Hx3; subst end.
      match goal with Hd : dequeue_step _ _ (Some _) _ |- _ =>
        inversion Hd as [|? ? l1 ? l2 Hq Ht]; subst end.
      destruct l1 as [|y [|z l1']]; simpl in Hq; inversion Hq; subst.
      * reflexivity.
      * cbv in Ht; discriminate Ht.
      * destruct l1'; discriminate.
Qed.

(** C5 (amended): [enqueue] assigns no time of its own. A successful
    enqueue stores the task exactly as passed, and a later dequeue that
    returns [a] leaves no task of the same priority with a smaller
    [created_at]: the FIFO tiebreaker is the [created_at] the task carries
    (set when the [Task] was constructed, or by its producer). *)
Theorem enqueue_keeps_created_at q t timeout q' :
  enqueue q t timeout = (true, q') ->
  queue_ q' = t :: queue_ q /\
  (forall to a q'', dequeue_step q' to (Some a) q'' ->
     forall b, In b (queue_ q'') -> priority a = priority b ->
     created_at a <= created_at b).
Proof.
  intros He; split.
  - revert He; unfold enqueue, push.
    destruct (shutdown_ q); [discriminate|].
    destruct (0 <? max_capacity_ q)%nat; [|intros H; inversion H; reflexivity].
    destruct (timeout =? 0);
      [destruct (max_capacity_ q <=? size q)%nat
      | destruct (size q <? max_capacity_ q)%nat]; simpl;
      intros H; inversion H; reflexivity.
  - intros to a q'' Hd b Hb Hp.
    destruct (dequeue_top_ordered _ _ _ _ Hd b
                (proj1 (proj2 (dequeue_queue_incl _ _ _ _ Hd)) b Hb)) as [Hlt|[_ Hle]].
    + rewrite Hp in Hlt; lia.
    + exact Hle.
Qed.

End TaskQueueClaims.

(* ================================================================== *)
(** * Properties of the task envelope *)

Section TaskCodecClaims.
Import TaskCodec.
Local Open Scope string_scope.

Lemma to_int32_small z : int_range z -> to_int32 z = z.
Proof.
  unfold int_range, to_int32; intros H.
  change (2 ^ 31) with 2147483648 in *; change (2 ^ 32) with 4294967296.
  rewrite Z.mod_small; lia.
Qed.

Lemma truncate_seconds_close x :
  Z.abs (from_time_t (to_time_t x) - x) < ticks_per_second.
Proof.
  unfold from_time_t, to_time_t, ticks_per_second.
  pose proof (Z.quot_rem' x 1000000000) as Hqr.
  pose proof (Z.rem_bound_abs x 1000000000 ltac:(lia)) as Hb.
  replace (Z.quot x 1000000000 * 1000000000 - x) with (- Z.rem x 1000000000) by lia.
  rewrite Z.abs_opp; exact Hb.
Qed.

(** C2 (as stated, refuted): a task created 123456 microseconds into a
    second comes back from the envelope with [created_at] on the whole
    second, 123456 microseconds away. *)
Lemma task_json_roundtrip_drops_subseconds :
  from_json (to_json sample_task) =
    Ok (mkTask (id sample_task) (type sample_task) (payload sample_task)
          NORMAL PENDING 0 3 1730000000000000000 1730000000000000000 "") /\
  created_at sample_task - 1730000000000000000 = 123456 * 1000.
Proof. split; vm_compute; reflexivity. Qed.

(** C2 (amended): for a task whose [int] fields and whose timestamps'
    second counts fit in [int], [from_json (to_json t)] gives back id,
    type, payload, priority, status, retry_count, max_retries and
    worker_id exactly, and [created_at] / [updated_at] truncated toward
    zero to whole seconds, so within one second of the originals. *)
Theorem task_json_roundtrip_to_seconds t :
  wf_task t ->
  from_json (to_json t) =
    Ok (mkTask (id t) (type t) (payload t) (priority t) (status t)
          (retry_count t) (max_retries t)
          (from_time_t (to_time_t (created_at t)))
          (from_time_t (to_time_t (updated_at t))) (worker_id t)) /\
  Z.abs (from_time_t (to_time_t (created_at t)) - created_at t) < ticks_per_second /\
  Z.abs (from_time_t (to_time_t (updated_at t)) - updated_at t) < ticks_per_second.
Proof.
  intros (Hp & Hs & Hr & Hm & Hc & Hu).
  split; [|split; apply truncate_seconds_close].
  unfold from_json, to_json, value, bind; cbn -[to_int32 to_time_t from_time_t].
  rewrite (to_int32_small _ Hp), (to_int32_small _ Hs), (to_int32_small _ Hr),
    (to_int32_small _ Hm), (to_int32_small _ Hc), (to_int32_small _ Hu).
  reflexivity.
Qed.

End TaskCodecClaims.

Section TaskCodecDefaults.
Import TaskCodec.
Local Open Scope string_scope.

Lemma value_string_ok fields k d :
  present_ok string_like fields k = true ->
  exists s, value get_string (JObject fields) k d = Ok s /\
            (find k fields = None -> s = d).
Proof.
  unfold present_ok, value.
  destruct (find k fields) as [v|]; [|eauto].
  destruct v; simpl; try discriminate; eauto.
  intros _; eexists; split; [reflexivity | discriminate].
Qed.

Lemma value_int_ok fields k d :
  present_ok int_like fields k = true ->
  exists z, value get_int (JObject fields) k d = Ok z /\
            (find k fields = None -> z = d).
Proof.
  unfold present_ok, value.
  destruct (find k fields) as [v|]; [|eauto].
  destruct v; simpl; try discriminate;
    try (intros _; eexists; split; try reflexivity; discriminate).
  destruct (float_to_int f) as [z|]; [|discriminate].
  intros _; eexists; split; [reflexivity | discriminate].
Qed.

Lemma value_string_ok_inv fields k d s :
  value get_string (JObject fields) k d = Ok s ->
  present_ok string_like fields k = true.
Proof.
  unfold present_ok, value; destruct (find k fields) as [v|]; [|reflexivity].
  destruct v; simpl; congruence.
Qed.

Lemma value_int_ok_inv fields k d z :
  value get_int (JObject fields) k d = Ok z ->
  present_ok int_like fields k = true.
Proof.
  unfold present_ok, value; destruct (find k fields) as [v|]; [|reflexivity].
  destruct v; simpl; try congruence.
  destruct (float_to_int f); congruence.
Qed.

Lemma value_default {A} (get : json -> result A) fields k d a :
  value get (JObject fields) k d = Ok a -> find k fields = None -> a = d.
Proof. unfold value; intros H Hn; rewrite Hn in H; injection H; auto. Qed.

Lemma bind_ok_inv {A B} (r : result A) (k : A -> result B) b :
  bind r k = Ok b -> exists a, r = Ok a /\ k a = Ok b.
Proof. destruct r; simpl; [eauto | discriminate]. Qed.

Lemma well_typed_fields_spec fields :
  well_typed_fields fields = true <->
  present_ok string_like fields "id" = true /\
  present_ok string_like fields "type" = true /\
  present_ok string_like fields "payload" = true /\
  present_ok string_like fields "worker_id" = true /\
  present_ok int_like fields "priority" = true /\
  present_ok int_like fields "status" = true /\
  present_ok int_like fields "retry_count" = true /\
  present_ok int_like fields "max_retries" = true /\
  present_ok int_like fields "created_at" = true /\
  present_ok int_like fields "updated_at" = true.
Proof.
  unfold well_typed_fields, present_ok, string_keys, int_keys; simpl.
  rewrite !andb_true_iff; tauto.
Qed.

Lemma find_app_unknown k extra fields :
  Forall (fun kv => ~ In (fst kv) envelope_keys) extra ->
  In k envelope_keys ->
  find k (extra ++ fields) = find k fields.
Proof.
  induction 1 as [|[k' v] extra Hk _ IH]; intros Hin; [reflexivity|].
  simpl in *. destruct (String.eqb_spec k' k) as [->|_]; [contradiction|].
  apply IH; exact Hin.
Qed.

End TaskCodecDefaults.

Section TaskCodecEnvelope.
Import TaskCodec.
Local Open Scope string_scope.

(** C6 (as stated, refuted): well-formed JSON can make [from_json] throw
    (an object whose "id" is a number), and a missing "priority" becomes
    1, not 0. *)
Lemma from_json_fails_on_well_formed_json :
  from_json (JObject [("id", JInt 5)]) = Throw (type_error 302) /\
  from_json (JArray []) = Throw (type_error 306) /\
  from_json (JObject []) = Ok default_task /\ priority default_task = 1.
Proof. repeat split; reflexivity. Qed.

(** C6 (amended): [from_json] on a JSON object ignores every key other
    than the ten it reads; it succeeds exactly when each of those keys
    that is present holds a value of the kind its default has (a string
    for id, type, payload and worker_id; for the others an integer, a
    boolean, or a floating-point number whose truncation toward zero fits
    in [int]: [get<int>()] converts it with [static_cast], and one out of
    [int]'s range is undefined behaviour), and then a missing key gives "" for the string fields, 1
    (NORMAL) for priority, 0 for status, retry_count, created_at and
    updated_at, and 3 for max_retries. On a JSON value that is not an
    object it throws [type_error] 306. *)
Theorem from_json_unknown_fields_and_defaults fields :
  (forall extra, Forall (fun kv => ~ In (fst kv) envelope_keys) extra ->
     from_json (JObject (extra ++ fields)) = from_json (JObject fields)) /\
  ((exists t, from_json (JObject fields) = Ok t) <->
     well_typed_fields fields = true) /\
  (forall t, from_json (JObject fields) = Ok t ->
     (find "id" fields = None -> id t = "") /\
     (find "type" fields = None -> type t = "") /\
     (find "payload" fields = None -> payload t = "") /\
     (find "priority" fields = None -> priority t = 1) /\
     (find "status" fields = None -> status t = 0) /\
     (find "retry_count" fields = None -> retry_count t = 0) /\
     (find "max_retries" fields = None -> max_retries t = 3) /\
     (find "created_at" fields = None -> created_at t = 0) /\
     (find "updated_at" fields = None -> updated_at t = 0) /\
     (find "worker_id" fields = None -> worker_id t = "")) /\
  (forall j, (forall fs, j <> JObject fs) -> from_json j = Throw (type_error 306)).
Proof.
  split; [|split; [split|split]].
  - intros extra Hx.
    unfold from_json, value.
    rewrite !(find_app_unknown _ extra fields Hx) by (simpl; tauto).
    reflexivity.
  - intros [t Ht]. apply well_typed_fields_spec.
    unfold from_json in Ht.
    apply bind_ok_inv in Ht as [a1 [E1 Ht]]; apply bind_ok_inv in Ht as [a2 [E2 Ht]].
    apply bind_ok_inv in Ht as [a3 [E3 Ht]]; apply bind_ok_inv in Ht as [a4 [E4 Ht]].
    apply bind_ok_inv in Ht as [a5 [E5 Ht]]; apply bind_ok_inv in Ht as [a6 [E6 Ht]].
    apply bind_ok_inv in Ht as [a7 [E7 Ht]]; apply bind_ok_inv in Ht as [a8 [E8 Ht]].
    apply bind_ok_inv in Ht as [a9 [E9 Ht]]; apply bind_ok_inv in Ht as [a10 [E10 Ht]].
    apply value_string_ok_inv in E1, E2, E3, E10.
    apply value_int_ok_inv in E4, E5, E6, E7, E8, E9.
    tauto.
  - intros Hwt. apply well_typed_fields_spec in Hwt.
    destruct Hwt as (H1 & H2 & H3 & H10 & H4 & H5 & H6 & H7 & H8 & H9).
    destruct (value_string_ok _ _ "" H1) as [a1 [E1 _]].
    destruct (value_string_ok _ _ "" H2) as [a2 [E2 _]].
    destruct (value_string_ok _ _ "" H3) as [a3 [E3 _]].
    destruct (value_int_ok _ _ 1 H4) as [a4 [E4 _]].
    destruct (value_int_ok _ _ 0 H5) as [a5 [E5 _]].
    destruct (value_int_ok _ _ 0 H6) as [a6 [E6 _]].
    destruct (value_int_ok _ _ 3 H7) as [a7 [E7 _]].
    destruct (value_int_ok _ _ 0 H8) as [a8 [E8 _]].
    destruct (value_int_ok _ _ 0 H9) as [a9 [E9 _]].
    destruct (value_string_ok _ _ "" H10) as [a10 [E10 _]].
    unfold from_json; rewrite E1, E2, E3, E4, E5, E6, E7, E8, E9, E10.
    eexists; reflexivity.
  - intros t Ht.
    unfold from_json in Ht.
    apply bind_ok_inv in Ht as [a1 [E1 Ht]]; apply bind_ok_inv in Ht as [a2 [E2 Ht]].
    apply bind_ok_inv in Ht as [a3 [E3 Ht]]; apply bind_ok_inv in Ht as [a4 [E4 Ht]].
    apply bind_ok_inv in Ht as [a5 [E5 Ht]]; apply bind_ok_inv in Ht as [a6 [E6 Ht]].
    apply bind_ok_inv in Ht as [a7 [E7 Ht]]; apply bind_ok_inv in Ht as [a8 [E8 Ht]].
    apply bind_ok_inv in Ht as [a9 [E9 Ht]]; apply bind_ok_inv in Ht as [a10 [E10 Ht]].
    injection Ht as <-; simpl.
    repeat split; intros Hn;
      match goal with
      | E : value _ _ ?k _ = Ok _, Hn : find ?k _ = None |- _ =>
          rewrite (value_default _ _ _ _ _ E Hn)
      end; reflexivity.
  - intros j Hj. destruct j; try reflexivity.
    exfalso; apply (Hj fields0); reflexivity.
Qed.

(** C7 (as stated, refuted): an envelope with priority 7 and status 9
    yields a task holding 7 and 9, not MEDIUM (1) and PENDING (0). *)
Lemma out_of_range_enums_kept :
  from_json (JObject [("priority", JInt 7); ("status", JInt 9)]) =
    Ok (mkTask "" "" "" 7 9 0 3 0 0 "") /\
  7 <> NORMAL /\ 9 <> PENDING.
Proof. split; [reflexivity | split; cbv; discriminate]. Qed.

(** C7 (amended): [from_json] stores the integers of "priority" and
    "status" as they are ([static_cast] of the value read as an [int]):
    in every envelope it accepts, an integer priority or status is kept
    (wrapped to 32 bits if [int] cannot hold it), and putting any integer
    in those two fields of such an envelope still parses, with the other
    fields unchanged. Nothing is defaulted or rejected for values outside
    0..2 and 0..4. *)
Theorem from_json_casts_enum_integers fields t :
  from_json (JObject fields) = Ok t ->
  (forall p, find "priority" fields = Some (JInt p) ->
     priority t = to_int32 p /\ (int_range p -> priority t = p)) /\
  (forall s, find "status" fields = Some (JInt s) ->
     status t = to_int32 s /\ (int_range s -> status t = s)) /\
  (forall p s,
     from_json (JObject (("priority", JInt p) :: ("status", JInt s) :: fields)) =
       Ok (mkTask (id t) (type t) (payload t) (to_int32 p) (to_int32 s)
             (retry_count t) (max_retries t) (created_at t) (updated_at t)
             (worker_id t))).
Proof.
  intros Ht.
  unfold from_json in Ht.
  apply bind_ok_inv in Ht as [a1 [E1 Ht]]; apply bind_ok_inv in Ht as [a2 [E2 Ht]].
  apply bind_ok_inv in Ht as [a3 [E3 Ht]]; apply bind_ok_inv in Ht as [a4 [E4 Ht]].
  apply bind_ok_inv in Ht as [a5 [E5 Ht]]; apply bind_ok_inv in Ht as [a6 [E6 Ht]].
  apply bind_ok_inv in Ht as [a7 [E7 Ht]]; apply bind_ok_inv in Ht as [a8 [E8 Ht]].
  apply bind_ok_inv in Ht as [a9 [E9 Ht]]; apply bind_ok_inv in Ht as [a10 [E10 Ht]].
  injection Ht as <-; cbn [priority status id type payload retry_count max_retries
                           created_at updated_at worker_id].
  split; [|split].
  - intros p Hf; unfold value in E4; rewrite Hf in E4; simpl in E4.
    injection E4 as <-; split; [reflexivity | apply to_int32_small].
  - intros s0 Hf; unfold value in E5; rewrite Hf in E5; simpl in E5.
    injection E5 as <-; split; [reflexivity | apply to_int32_small].
  - intros p s0.
    assert (V : forall A (get : json -> result A) k d,
               k <> "priority" -> k <> "status" ->
               value get (JObject (("priority", JInt p) :: ("status", JInt s0) :: fields)) k d =
               value get (JObject fields) k d).
    { intros A get k d H1 H2; unfold value; cbn [find].
      destruct (String.eqb_spec "priority" k) as [Hk|_]; [congruence|].
      destruct (String.eqb_spec "status" k) as [Hk|_]; [congruence|].
      reflexivity. }
    unfold from_json.
    rewrite (V _ _ "id" "") by discriminate.
    rewrite (V _ _ "type" "") by discriminate.
    rewrite (V _ _ "payload" "") by discriminate.
    rewrite (V _ _ "retry_count" 0) by discriminate.
    rewrite (V _ _ "max_retries" 3) by discriminate.
    rewrite (V _ _ "created_at" 0) by discriminate.
    rewrite (V _ _ "updated_at" 0) by discriminate.
    rewrite (V _ _ "worker_id" "") by discriminate.
    replace (value get_int (JObject (("priority", JInt p) :: ("status", JInt s0) :: fields))
               "priority" 1) with (Ok (to_int32 p) : result Z) by reflexivity.
    replace (value get_int (JObject (("priority", JInt p) :: ("status", JInt s0) :: fields))
               "status" 0) with (Ok (to_int32 s0) : result Z) by reflexivity.
    rewrite E1, E2, E3, E6, E7, E8, E9, E10.
    reflexivity.
Qed.

End TaskCodecEnvelope.

(* ================================================================== *)
(** * Properties of the sample codec *)

Section VarintFacts.
Import SampleCodec.





Lemma encode_varint_cons n : exists b bs, encode_varint n = b :: bs.
Proof.
  unfold encode_varint; simpl. destruct (n <? 128); eauto.
Qed.




End VarintFacts.

Section SampleParse.
Import SampleCodec.






End SampleParse.

Section SampleSegments.
Import SampleCodec.






End SampleSegments.

Section SampleClaims.
Import SampleCodec.



End SampleClaims.

Section BrokerFacts.
Import Broker.
Local Open Scope string_scope.

Lemma lookup_update_same {V} (k : string) (v : V) m :
  lookup k (update k v m) = Some v.
Proof.
  induction m as [|[k' v'] rest IH]; simpl.
  - rewrite String.eqb_refl; reflexivity.
  - destruct (String.eqb_spec k' k) as [->|Hne]; simpl.
    + rewrite String.eqb_refl; reflexivity.
    + apply String.eqb_neq in Hne; rewrite Hne; exact IH.
Qed.

Lemma zadd_then_zpopmax_server srv k m d p :
  reachable srv = true -> zset_of srv k = [] -> redis_score d = Some p ->
  exists srv', fst (server_zpopmax (snd (server_zadd srv k m d)) k) = Value (Some (m, p))
    /\ server_zadd srv k m d = (Value 1, srv').
Proof.
  intros Hr Hz Hd.
  unfold server_zadd; rewrite Hr, Hd, Hz; simpl.
  eexists; split; [|reflexivity].
  unfold server_zpopmax, zset_of; simpl.
  rewrite lookup_update_same; reflexivity.
Qed.

Lemma zadd_rejected_server srv k m d :
  reachable srv = true -> redis_score d = None ->
  server_zadd srv k m d = (RedisError, srv).
Proof. intros Hr Hd; unfold server_zadd; rewrite Hr, Hd; reflexivity. Qed.

Lemma zpopmax_empty_server srv k :
  reachable srv = true -> zset_of srv k = [] ->
  server_zpopmax srv k = (Value None, srv).
Proof. intros Hr Hz; unfold server_zpopmax; rewrite Hr, Hz; reflexivity. Qed.

Lemma redis_score_dec sg n : exists q, redis_score (Dec sg n) = Some q.
Proof. destruct n; eexists; reflexivity. Qed.

(** [std::to_string] gives "nan" exactly for a NaN, and Redis accepts
    every other text it prints. *)
Lemma redis_score_to_string p :
  (PrimFloat.is_nan p = true -> redis_score (to_string_double p) = None) /\
  (PrimFloat.is_nan p = false -> exists q, redis_score (to_string_double p) = Some q).
Proof.
  unfold to_string_double, FloatOps.Prim2SF.
  destruct (PrimFloat.is_nan p); split; intros H; try discriminate.
  - reflexivity.
  - destruct (PrimFloat.is_zero p); [eexists; reflexivity|].
    destruct (PrimFloat.is_infinity p); [eexists; reflexivity|].
    destruct (FloatOps.Z.frexp p) as [r ex].
    destruct (SpecFloat.shr_fexp _ _ _ _ _) as [shr e'].
    destruct (SpecFloat.shr_m shr); apply redis_score_dec.
Qed.

End BrokerFacts.

Section BrokerClaims.
Import Broker.
Local Open Scope string_scope.

(** C8 (counterexample): not every broker operation falls back to
    absent/zero/false. [telemetry_processor::RedisClient::llen] on a client
    that never connected returns -1, and [telemetry_common::RedisClient::ttl]
    returns -2 when it has no connection or the call throws. *)
Lemma broker_fallbacks_not_all_zero :
  proc_llen (proc_create "localhost" 6379) "tasks:pending" = -1 /\
  ttl false (Value 5) = -2 /\ ttl true RedisError = -2.
Proof. repeat split; reflexivity. Qed.

(** C8 (amended): every method of [telemetry_common::RedisClient] that
    has no connection or whose redis++ call throws returns its fallback:
    false, [nullopt], 0, an empty vector or an empty string, except [ttl],
    which returns -2. Every method of [telemetry_processor::RedisClient] on a
    client that is not connected returns "", false, [nullopt] or false and
    leaves the client unchanged, except [llen], which returns -1. The
    methods are total functions to their result types: none raises. *)
Theorem broker_operations_fall_back :
  falls_back_to ping false /\ falls_back_to set false /\
  falls_back_to get None /\ falls_back_to del 0 /\
  falls_back_to exists_ false /\ falls_back_to expire false /\
  falls_back_to ttl (-2) /\ falls_back_to lpush 0 /\
  falls_back_to rpop None /\ falls_back_to brpop None /\
  falls_back_to llen 0 /\ falls_back_to lrange [] /\
  falls_back_to sadd 0 /\ falls_back_to sismember false /\
  falls_back_to srem 0 /\ falls_back_to zadd 0 /\
  falls_back_to zpopmax None /\ falls_back_to zcard 0 /\
  falls_back_to incr 0 /\ falls_back_to decr 0 /\
  falls_back_to info "" /\
  (forall h port i k v t,
     let c := mkProcClient h port false i in
     proc_ping c = "" /\ proc_rpush c k v = (false, c) /\
     proc_blpop c k t = (None, c) /\ proc_set c k v = (false, c) /\
     proc_get c k = None /\ proc_del c k = (false, c) /\
     proc_llen c k = -1).
Proof.
  repeat split; try (intros; reflexivity).
Qed.

(** C9 (counterexample): [telemetry_common::RedisClient::zpopmax] returns
    only the member. After [zadd("tasks", "task-1", 50)] on an empty sorted
    set the server replies ("task-1", 50) and the client returns
    "task-1"; with score 100 the client returns the same value, so the
    score is not part of the result. *)
Lemma zpopmax_returns_member_only :
  let srv0 := mkServer true [] in
  fst (server_zpopmax (snd (server_zadd srv0 "tasks" "task-1" (to_string_double 50%float)))
         "tasks")
    = Value (Some ("task-1", 50%float)) /\
  fst (client_zpopmax (snd (client_zadd srv0 "tasks" "task-1" 50%float)) "tasks")
    = Some "task-1" /\
  fst (client_zpopmax (snd (client_zadd srv0 "tasks" "task-1" 100%float)) "tasks")
    = Some "task-1".
Proof. repeat split; reflexivity. Qed.

(** C9 (amended): on a reachable server where the sorted set [k] is empty,
    for a score [p] that is not NaN, [zadd(k, m, p)] returns 1 and a
    following [zpopmax(k)] returns the member [m]; the score Redis stored
    ([p] as [std::to_string] printed it) is in the server's reply but is
    dropped by the client. For a NaN score Redis rejects the [ZADD]:
    [zadd] returns 0, the server is unchanged, and [zpopmax(k)] returns
    [nullopt]. *)
Theorem zpopmax_after_zadd_returns_member srv k m p :
  reachable srv = true -> zset_of srv k = [] ->
  (PrimFloat.is_nan p = false ->
     fst (client_zadd srv k m p) = 1 /\
     fst (client_zpopmax (snd (client_zadd srv k m p)) k) = Some m /\
     exists p', redis_score (to_string_double p) = Some p' /\
       fst (server_zpopmax (snd (server_zadd srv k m (to_string_double p))) k) =
         Value (Some (m, p'))) /\
  (PrimFloat.is_nan p = true ->
     client_zadd srv k m p = (0, srv) /\
     fst (client_zpopmax (snd (client_zadd srv k m p)) k) = None).
Proof.
  intros Hr Hz.
  destruct (redis_score_to_string p) as [Hnan Hnum].
  split.
  - intros Hp. destruct (Hnum Hp) as [q Hq].
    destruct (zadd_then_zpopmax_server srv k m _ q Hr Hz Hq) as [srv' [Hpop Hadd]].
    unfold client_zadd, client_zpopmax.
    rewrite Hadd; rewrite Hadd in Hpop; simpl in *.
    destruct (server_zpopmax srv' k) as [raw srv''] eqn:E; simpl in *.
    subst raw. split; [reflexivity|]. split; [reflexivity|].
    exists q; split; [exact Hq | reflexivity].
  - intros Hp.
    unfold client_zadd, client_zpopmax.
    rewrite (zadd_rejected_server srv k m _ Hr (Hnan Hp)); simpl.
    rewrite (zpopmax_empty_server srv k Hr Hz); simpl.
    split; reflexivity.
Qed.

End BrokerClaims.

(* ================================================================== *)
(** * Further properties of the priority queue *)

Section QueueFacts2.
Import TaskQueue.

Lemma enqueue_spec q t timeout :
  enqueue q t timeout = if shutdown_ q || full q then (false, q) else (true, push q t).
Proof.
  unfold enqueue, full, size.
  destruct (shutdown_ q); [reflexivity|]; simpl.
  destruct (Nat.ltb_spec 0 (max_capacity_ q)) as [Hc|Hc]; simpl; [|reflexivity].
  destruct (timeout =? 0);
    destruct (Nat.leb_spec (max_capacity_ q) (List.length (queue_ q)));
    destruct (Nat.ltb_spec (List.length (queue_ q)) (max_capacity_ q));
    simpl; first [reflexivity | lia].
Qed.

Lemma enqueue_result q t timeout b q1 :
  enqueue q t timeout = (b, q1) ->
  (q1 = q) \/ (shutdown_ q = false /\ q1 = push q t).
Proof.
  rewrite enqueue_spec.
  destruct (shutdown_ q) eqn:Hs; simpl; [intros H; inversion H; left; reflexivity|].
  destruct (full q); intros H; inversion H; [left | right]; auto.
Qed.

Lemma dequeue_perm q to x q1 :
  dequeue_step q to (Some x) q1 -> Permutation (queue_ q) (x :: queue_ q1).
Proof.
  intros H; inversion H; subst; simpl.
  match goal with Hq : queue_ _ = _ |- _ => rewrite Hq end.
  apply Permutation_sym, Permutation_middle.
Qed.

Lemma dequeue_keeps_flags q to r q1 :
  dequeue_step q to r q1 ->
  shutdown_ q1 = shutdown_ q /\ max_capacity_ q1 = max_capacity_ q.
Proof. intros H; inversion H; subst; simpl; auto. Qed.

Lemma occ_app l r x : occ (l ++ r) x = (occ l x + occ r x)%nat.
Proof. unfold occ; apply count_occ_app. Qed.

Lemma occ_cons a l x :
  occ (a :: l) x = ((if Task_eq_dec a x then 1 else 0) + occ l x)%nat.
Proof.
  unfold occ; simpl; destruct (Task_eq_dec a x); reflexivity.
Qed.

Lemma occ_perm l r x : Permutation l r -> occ l x = occ r x.
Proof. intros H; unfold occ; apply Permutation_count_occ; exact H. Qed.

Lemma top_keys_equal l a b :
  In a l -> In b l -> is_top l a = true -> is_top l b = true ->
  priority a = priority b /\ created_at a = created_at b.
Proof.
  unfold is_top; rewrite !forallb_forall; intros Ha Hb Ta Tb.
  specialize (Ta b Hb); specialize (Tb a Ha).
  apply negb_true_iff in Ta; apply negb_true_iff in Tb.
  apply comparator_false_ordered in Ta; apply comparator_false_ordered in Tb.
  unfold ordered_before in *.
  assert (Hp : priority_int (priority a) = priority_int (priority b)) by lia.
  split.
  - destruct (priority a), (priority b); simpl in Hp; first [reflexivity | discriminate].
  - lia.
Qed.

(** For an enqueue call, evaluated at the moment it completes: it fails and
    leaves the queue unchanged exactly when the queue is shut down or
    [full()] holds; otherwise it adds the task. The timeout only decides
    when the call completes. *)
Theorem enqueue_fails_iff_shutdown_or_full q t timeout :
  enqueue q t timeout =
    if shutdown_ q || full q then (false, q) else (true, push q t).
Proof. apply enqueue_spec. Qed.

(** Back-pressure: a producer enqueueing the tasks [ts] one after another
    into a bounded queue that is not shut down and holds [size <= capacity]
    tasks gets [true] for the first [capacity - size] tasks and [false] for
    every later one; the queue ends up holding exactly the accepted tasks on
    top of the ones it had. *)
Theorem enqueue_all_backpressure q ts timeout :
  shutdown_ q = false ->
  (0 < max_capacity_ q)%nat ->
  (size q <= max_capacity_ q)%nat ->
  fst (enqueue_all q ts timeout) =
    repeat true (Nat.min (max_capacity_ q - size q) (List.length ts)) ++
    repeat false (List.length ts - (max_capacity_ q - size q)) /\
  queue_ (snd (enqueue_all q ts timeout)) =
    rev (firstn (max_capacity_ q - size q) ts) ++ queue_ q /\
  max_capacity_ (snd (enqueue_all q ts timeout)) = max_capacity_ q /\
  shutdown_ (snd (enqueue_all q ts timeout)) = false.
Proof.
  revert q; induction ts as [|t rest IH]; intros q Hs Hc Hle.
  - simpl; rewrite Nat.min_0_r, firstn_nil; simpl; auto.
  - simpl. rewrite enqueue_spec, Hs; simpl.
    unfold full.
    destruct (Nat.ltb_spec 0 (max_capacity_ q)) as [_|]; [|lia]; simpl.
    destruct (Nat.leb_spec (max_capacity_ q) (size q)) as [Hfull|Hfree].
    + assert (E : (max_capacity_ q - size q = 0)%nat) by lia.
      destruct (enqueue_all q rest timeout) as [bs q2] eqn:Er.
      destruct (IH q Hs Hc Hle) as (H1 & H2 & H3 & H4).
      rewrite Er in H1, H2, H3, H4; simpl in *.
      rewrite E in *; simpl in *.
      rewrite H1; simpl; rewrite Nat.sub_0_r; auto.
    + remember (max_capacity_ q - size q)%nat as free eqn:Ef.
      destruct free as [|f]; [lia|].
      assert (Hs' : shutdown_ (push q t) = false) by exact Hs.
      assert (Hc' : (0 < max_capacity_ (push q t))%nat) by exact Hc.
      assert (Hle' : (size (push q t) <= max_capacity_ (push q t))%nat)
        by (unfold size, push in *; simpl; lia).
      destruct (enqueue_all (push q t) rest timeout) as [bs q2] eqn:Er.
      destruct (IH (push q t) Hs' Hc' Hle') as (H1 & H2 & H3 & H4).
      rewrite Er in H1, H2, H3, H4; simpl in *.
      assert (Ef' : (max_capacity_ q - S (size q) = f)%nat) by lia.
      unfold size, push in H1, H2, Ef'; simpl in H1, H2.
      rewrite Ef' in H1, H2.
      rewrite H1, H2. repeat split; auto.
      rewrite <- app_assoc; reflexivity.
Qed.

(** A run made only of dequeues loses and duplicates no task: the tasks
    popped, together with the tasks left, are exactly the tasks the queue
    held at the start. *)
Theorem dequeues_conserve_tasks q ops popped q' :
  exec q ops popped q' -> Forall is_deq ops ->
  Permutation (queue_ q) (popped ++ queue_ q').
Proof.
  induction 1; intros Hops; inversion Hops; subst; try contradiction.
  - apply Permutation_refl.
  - auto.
  - simpl. eapply perm_trans; [apply (dequeue_perm _ _ _ _ H)|].
    apply perm_skip; auto.
Qed.

(** The queue never invents or duplicates a task: over any run of enqueue,
    dequeue, clear and shutdown operations, each task is popped or left in
    the queue at most as many times as it was in the queue at the start or
    passed to [enqueue]. *)
Theorem exec_no_task_invented q ops popped q' :
  exec q ops popped q' ->
  forall x, (occ (popped ++ queue_ q') x <= occ (queue_ q ++ enq_tasks ops) x)%nat.
Proof.
  induction 1; intros y; cbn [enq_tasks app].
  - rewrite app_nil_r; lia.
  - specialize (IHexec y).
    destruct (enqueue_result _ _ _ _ _ H) as [->|[_ ->]].
    + rewrite !occ_app in *; rewrite occ_cons; lia.
    + unfold push in IHexec; cbn [queue_] in IHexec.
      rewrite !occ_app in *; rewrite !occ_cons in *.
      destruct (Task_eq_dec t y); lia.
  - auto.
  - specialize (IHexec y).
    pose proof (occ_perm _ _ y (dequeue_perm _ _ _ _ H)) as Hp.
    rewrite occ_cons; rewrite !occ_app in *; rewrite Hp, occ_cons; lia.
  - specialize (IHexec y); cbn [queue_ clear app] in IHexec; rewrite !occ_app in *; lia.
  - exact (IHexec y).
Qed.

(** Once the queue is shut down no task enters it any more: it stays shut
    down, and every task later popped or left in it was already there, as
    many times at most. *)
Theorem shutdown_admits_no_task q ops popped q' :
  shutdown_ q = true -> exec q ops popped q' ->
  shutdown_ q' = true /\
  forall x, (occ (popped ++ queue_ q') x <= occ (queue_ q) x)%nat.
Proof.
  intros Hs Hx; induction Hx; cbn [app].
  - split; [exact Hs | intros; lia].
  - rewrite enqueue_spec, Hs in H; simpl in H; inversion H; subst; auto.
  - auto.
  - destruct (dequeue_keeps_flags _ _ _ _ H) as [Hs1 _].
    destruct (IHHx (eq_trans Hs1 Hs)) as [Hs' Hocc]; split; [exact Hs'|].
    intros y; specialize (Hocc y).
    pose proof (occ_perm _ _ y (dequeue_perm _ _ _ _ H)) as Hp.
    rewrite occ_cons, Hp, occ_cons; lia.
  - destruct (IHHx Hs) as [Hs' Hocc]; split; [exact Hs'|].
    intros y; specialize (Hocc y); simpl in Hocc; lia.
  - destruct (IHHx eq_refl) as [Hs' Hocc]; split; [exact Hs'|]; exact Hocc.
Qed.

(** [peek()] and [dequeue()] agree: both report an empty queue in the same
    states, the task [peek()] shows is one [dequeue()] may remove, and any
    task [peek()] shows has the priority and [created_at] of any task
    [dequeue()] removes from the same state. *)
Theorem peek_agrees_with_dequeue q to :
  (peek_step q None <-> queue_ q = []) /\
  (forall q', dequeue_step q to None q' <-> queue_ q = [] /\ q' = q) /\
  (forall a, peek_step q (Some a) -> exists q', dequeue_step q to (Some a) q') /\
  (forall a b q', peek_step q (Some a) -> dequeue_step q to (Some b) q' ->
     priority a = priority b /\ created_at a = created_at b).
Proof.
  split; [|split; [|split]].
  - split; [intros H; inversion H; assumption | intros H; constructor; exact H].
  - intros q'; split.
    + intros H; inversion H; subst; auto.
    + intros [He ->]; constructor; exact He.
  - intros a H; inversion H as [|? ? Hin Htop]; subst.
    destruct (in_split _ _ Hin) as (l1 & l2 & Hq).
    exists (mkQueue (l1 ++ l2) (max_capacity_ q) (shutdown_ q)).
    apply deq_top; assumption.
  - intros a b q' Hp Hd.
    inversion Hp as [|? ? Hin Htop]; subst.
    inversion Hd as [|? ? l1 ? l2 Hq Htop']; subst.
    apply (top_keys_equal (queue_ q)); try assumption.
    rewrite Hq; apply in_or_app; right; left; reflexivity.
Qed.

End QueueFacts2.

(* ================================================================== *)
(** * Task creation and task ids *)

Section CreateFacts.
Import TaskCodec.
Local Open Scope string_scope.

(** A task made by [Task::create] comes back from its JSON envelope as the
    task [Task::create] would have made with the same id and arguments at
    the creation time truncated to whole seconds: status PENDING,
    retry_count 0, an empty worker_id and [updated_at] equal to
    [created_at]. The priority, max_retries and second count must fit in
    [int]. *)
Theorem created_task_json_roundtrip uuid now type payload priority max_retries :
  int_range priority -> int_range max_retries -> int_range (to_time_t now) ->
  from_json (to_json (create uuid now type payload priority max_retries)) =
    Ok (create uuid (from_time_t (to_time_t now)) type payload priority max_retries).
Proof.
  intros Hp Hm Hc.
  unfold from_json, to_json, create, value, bind; cbn -[to_int32 to_time_t from_time_t].
  rewrite (to_int32_small _ Hp), (to_int32_small _ Hm), (to_int32_small _ Hc).
  reflexivity.
Qed.

End CreateFacts.

Section UuidFacts.
Import Uuid.
Local Open Scope string_scope.

Lemma to_hex_single d : 0 <= d < 16 -> to_hex d = String (hex_digit d) "".
Proof.
  intros Hd; unfold to_hex.
  rewrite (Z.mod_small d (2 ^ 32)) by lia.
  cbn [hex_rev]. rewrite (Z.mod_small d 16) by lia.
  destruct (Z.ltb_spec d 16); [reflexivity | lia].
Qed.

Lemma hex_digit_hex d : 0 <= d < 16 -> is_hex_lower (hex_digit d) = true.
Proof.
  intros Hd.
  assert (d = 0 \/ d = 1 \/ d = 2 \/ d = 3 \/ d = 4 \/ d = 5 \/ d = 6 \/ d = 7 \/
          d = 8 \/ d = 9 \/ d = 10 \/ d = 11 \/ d = 12 \/ d = 13 \/ d = 14 \/ d = 15)
    as Hc by lia.
  repeat destruct Hc as [-> | Hc]; [reflexivity .. |].
  subst; reflexivity.
Qed.

Lemma hex_digit_variant d :
  8 <= d < 12 -> In (hex_digit d) ["8"; "9"; "a"; "b"]%char.
Proof.
  intros Hd.
  assert (d = 8 \/ d = 9 \/ d = 10 \/ d = 11) as Hc by lia.
  repeat destruct Hc as [-> | Hc]; [simpl; tauto .. |].
  subst; simpl; tauto.
Qed.

(** Every id [generate_uuid()] returns has the RFC 4122 version-4 layout:
    36 characters, hyphens at positions 8, 13, 18 and 23, the version digit
    '4' at position 14, a variant digit among 8, 9, a, b at position 19,
    and a lowercase hexadecimal digit everywhere else. *)
Theorem generate_uuid_format draw :
  (forall i, (i < 32)%nat -> i <> 15%nat -> 0 <= draw i < 16) ->
  8 <= draw 15%nat < 12 ->
  String.length (generate_uuid draw) = 36%nat /\
  (forall i, In i [8; 13; 18; 23]%nat -> String.get i (generate_uuid draw) = Some "-"%char) /\
  String.get 14 (generate_uuid draw) = Some "4"%char /\
  (exists c, String.get 19 (generate_uuid draw) = Some c /\ In c ["8"; "9"; "a"; "b"]%char) /\
  (forall i, (i < 36)%nat -> ~ In i [8; 13; 14; 18; 19; 23]%nat ->
     exists c, String.get i (generate_uuid draw) = Some c /\ is_hex_lower c = true).
Proof.
  intros Hd H15.
  unfold generate_uuid; cbn [hexes].
  repeat rewrite to_hex_single by (first [apply Hd; lia | lia]).
  cbn [String.append].
  split; [reflexivity|].
  split; [intros i Hi; simpl in Hi;
          destruct Hi as [<-|[<-|[<-|[<-|[]]]]]; reflexivity|].
  split; [reflexivity|].
  split; [eexists; split; [reflexivity | apply hex_digit_variant; exact H15]|].
  intros i Hi Hn.
  do 36 (destruct i as [|i];
         [ first [ eexists; split; [reflexivity | apply hex_digit_hex; apply Hd; lia]
                 | exfalso; apply Hn; simpl; tauto ] |]).
  lia.
Qed.

End UuidFacts.

(* ================================================================== *)
(** * The in-memory store of the processing client *)

Section ProcStoreFacts.
Import Broker.

Lemma lookup_update_eq {V} (k : string) (v : V) (m : list (string * V)) :
  lookup k (update k v m) = Some v.
Proof.
  induction m as [|[k0 v0] rest IH]; simpl.
  - rewrite String.eqb_refl; reflexivity.
  - destruct (String.eqb_spec k0 k) as [->|Hne]; simpl.
    + rewrite String.eqb_refl; reflexivity.
    + apply String.eqb_neq in Hne; rewrite Hne; exact IH.
Qed.

Lemma lookup_update_other {V} (k k' : string) (v : V) m :
  k' <> k -> lookup k' (update k v m) = lookup k' m.
Proof.
  intros Hne; induction m as [|[k0 v0] rest IH]; simpl.
  - destruct (String.eqb_spec k k'); [congruence | reflexivity].
  - destruct (String.eqb_spec k0 k) as [->|Hk]; simpl.
    + destruct (String.eqb_spec k k'); [congruence | reflexivity].
    + destruct (String.eqb k0 k'); [reflexivity | exact IH].
Qed.

Lemma lookup_remove_other {V} (k k' : string) (m : list (string * V)) :
  k' <> k -> lookup k' (remove k m) = lookup k' m.
Proof.
  intros Hne; induction m as [|[k0 v0] rest IH]; simpl; [reflexivity|].
  destruct (String.eqb_spec k0 k) as [->|Hk]; simpl.
  - destruct (String.eqb_spec k k'); [congruence | reflexivity].
  - destruct (String.eqb k0 k'); [reflexivity | exact IH].
Qed.

Lemma lookup_none_not_in {V} (k : string) (m : list (string * V)) :
  ~ In k (map fst m) -> lookup k m = None.
Proof.
  induction m as [|[k0 v0] rest IH]; simpl; intros Hn; [reflexivity|].
  destruct (String.eqb_spec k0 k); [exfalso; apply Hn; left; assumption|].
  apply IH; intros H; apply Hn; right; exact H.
Qed.

Lemma lookup_remove_same {V} (k : string) (m : list (string * V)) :
  NoDup (map fst m) -> lookup k (remove k m) = None.
Proof.
  induction m as [|[k0 v0] rest IH]; simpl; intros Hnd; [reflexivity|].
  inversion Hnd as [|? ? Hn Hnd']; subst.
  destruct (String.eqb_spec k0 k) as [->|Hk].
  - apply lookup_none_not_in; exact Hn.
  - simpl. destruct (String.eqb_spec k0 k); [contradiction|]. apply IH; exact Hnd'.
Qed.

Lemma in_keys_update {V} (k x : string) (v : V) m :
  In x (map fst (update k v m)) -> x = k \/ In x (map fst m).
Proof.
  induction m as [|[k0 v0] rest IH]; simpl.
  - intros [H|[]]; left; congruence.
  - destruct (String.eqb_spec k0 k) as [->|Hk]; simpl.
    + intros [H|H]; [left; congruence | right; right; exact H].
    + intros [H|H]; [right; left; exact H|].
      destruct (IH H); [left | right; right]; assumption.
Qed.

Lemma nodup_update {V} (k : string) (v : V) m :
  NoDup (map fst m) -> NoDup (map fst (update k v m)).
Proof.
  induction m as [|[k0 v0] rest IH]; simpl; intros Hnd.
  - constructor; [intros []| constructor].
  - inversion Hnd as [|? ? Hn Hnd']; subst.
    destruct (String.eqb_spec k0 k) as [->|Hk]; simpl.
    + constructor; assumption.
    + constructor; [|apply IH; exact Hnd'].
      intros Hin; destruct (in_keys_update _ _ _ _ Hin); [congruence | contradiction].
Qed.

Lemma in_keys_remove {V} (k x : string) (m : list (string * V)) :
  In x (map fst (remove k m)) -> In x (map fst m).
Proof.
  induction m as [|[k0 v0] rest IH]; simpl; [tauto|].
  destruct (String.eqb k0 k); simpl; [tauto|].
  intros [H|H]; [left; exact H | right; apply IH; exact H].
Qed.

Lemma nodup_remove {V} (k : string) (m : list (string * V)) :
  NoDup (map fst m) -> NoDup (map fst (remove k m)).
Proof.
  induction m as [|[k0 v0] rest IH]; simpl; intros Hnd; [exact Hnd|].
  inversion Hnd as [|? ? Hn Hnd']; subst.
  destruct (String.eqb k0 k); [exact Hnd'|].
  simpl; constructor; [|apply IH; exact Hnd'].
  intros Hin; apply Hn; apply (in_keys_remove k); exact Hin.
Qed.

(** Every reachable client keeps each key at most once in each of its two
    maps, as the [std::map]s do. *)
Lemma reachable_keys_unique c :
  proc_reachable c ->
  NoDup (map fst c.(impl_).(kv_store)) /\ NoDup (map fst c.(impl_).(lists)).
Proof.
  induction 1 as [h p|c _ IH|c k v _ IH|c k t _ IH|c k v _ IH|c k _ IH].
  - simpl; split; constructor.
  - exact IH.
  - unfold proc_rpush; destruct (negb (connected_ c)); simpl; [exact IH|].
    destruct IH; split; [assumption | apply nodup_update; assumption].
  - unfold proc_blpop; destruct (negb (connected_ c)); simpl; [exact IH|].
    destruct (lookup k (lists (impl_ c))) as [[|v rest]|]; simpl; [exact IH | | exact IH].
    destruct IH; split; [assumption | apply nodup_update; assumption].
  - unfold proc_set; destruct (negb (connected_ c)); simpl; [exact IH|].
    destruct IH; split; apply nodup_update || assumption; assumption.
  - unfold proc_del; destruct (negb (connected_ c)); simpl; [exact IH|].
    destruct IH; split; apply nodup_remove; assumption.
Qed.

Lemma rpush_list c k v :
  connected_ c = true ->
  proc_list (snd (proc_rpush c k v)) k = proc_list c k ++ [v] /\
  connected_ (snd (proc_rpush c k v)) = true.
Proof.
  intros Hc; unfold proc_rpush, proc_list; rewrite Hc; simpl.
  rewrite lookup_update_eq; split; [reflexivity | exact Hc].
Qed.

Lemma rpush_all_list c k vs :
  connected_ c = true ->
  proc_list (proc_rpush_all c k vs) k = proc_list c k ++ vs /\
  connected_ (proc_rpush_all c k vs) = true.
Proof.
  revert c; induction vs as [|v rest IH]; intros c Hc; simpl.
  - rewrite app_nil_r; split; [reflexivity | exact Hc].
  - destruct (rpush_list c k v Hc) as [Hl Hc'].
    destruct (IH _ Hc') as [Hl' Hc'']; rewrite Hl' , Hl, <- app_assoc; split; [reflexivity | exact Hc''].
Qed.

Lemma blpop_n_list c k l :
  connected_ c = true -> proc_list c k = l ->
  fst (proc_blpop_n c k (List.length l)) = map Some l /\
  proc_list (snd (proc_blpop_n c k (List.length l))) k = [] /\
  connected_ (snd (proc_blpop_n c k (List.length l))) = true.
Proof.
  revert c; induction l as [|v rest IH]; intros c Hc Hl; simpl;
    [repeat split; assumption|].
  unfold proc_list in Hl.
  destruct (lookup k (lists (impl_ c))) as [[|v' rest']|] eqn:E; try discriminate.
  injection Hl as -> ->.
  set (c1 := with_impl c (mkImpl (kv_store (impl_ c)) (update k rest (lists (impl_ c))))).
  assert (Hb : proc_blpop c k 0 = (Some v, c1))
    by (unfold proc_blpop; rewrite Hc, E; reflexivity).
  assert (Hc1 : connected_ c1 = true) by exact Hc.
  assert (Hl1 : proc_list c1 k = rest)
    by (unfold proc_list, c1, with_impl; simpl; rewrite lookup_update_eq; reflexivity).
  rewrite Hb.
  destruct (proc_blpop_n c1 k (List.length rest)) as [rs c2] eqn:Er.
  destruct (IH c1 Hc1 Hl1) as (H1 & H2 & H3); rewrite Er in H1, H2, H3; simpl in *.
  rewrite H1; repeat split; assumption.
Qed.

Lemma blpop_empty c k t :
  proc_list c k = [] -> fst (proc_blpop c k t) = None.
Proof.
  unfold proc_list, proc_blpop; intros Hl.
  destruct (negb (connected_ c)); [reflexivity|].
  destruct (lookup k (lists (impl_ c))) as [[|v rest]|]; simpl in *;
    first [reflexivity | discriminate].
Qed.

(** [rpush] / [blpop] on one key of a connected client form a FIFO queue:
    after pushing [vs] onto a list holding [l], popping [l ++ vs]-many times
    returns the elements of [l] and then of [vs], in order, and the next
    [blpop] finds the list empty. *)
Theorem rpush_blpop_fifo c key vs :
  connected_ c = true ->
  fst (proc_blpop_n (proc_rpush_all c key vs) key
         (List.length (proc_list c key ++ vs))) = map Some (proc_list c key ++ vs) /\
  fst (proc_blpop (snd (proc_blpop_n (proc_rpush_all c key vs) key
         (List.length (proc_list c key ++ vs)))) key 0) = None.
Proof.
  intros Hc.
  destruct (rpush_all_list c key vs Hc) as [Hl Hc'].
  destruct (blpop_n_list _ key _ Hc' Hl) as (H1 & H2 & _).
  split; [exact H1 | apply blpop_empty; exact H2].
Qed.

(** On a connected client, [rpush(key, v)] makes [llen(key)] one larger
    and changes neither the length of any other list nor any string
    value. *)
Theorem rpush_llen c key v :
  connected_ c = true ->
  proc_llen (snd (proc_rpush c key v)) key = proc_llen c key + 1 /\
  (forall k, k <> key -> proc_llen (snd (proc_rpush c key v)) k = proc_llen c k) /\
  (forall k, proc_get (snd (proc_rpush c key v)) k = proc_get c k).
Proof.
  intros Hc; unfold proc_rpush, proc_llen, proc_get; rewrite Hc; simpl. rewrite ?Hc; simpl.
  split; [|split].
  - rewrite lookup_update_eq.
    destruct (lookup key (lists (impl_ c))); rewrite ?length_app; simpl; lia.
  - intros k Hk; rewrite lookup_update_other by exact Hk; reflexivity.
  - intros k; reflexivity.
Qed.

(** On a connected client, [get(key)] after [set(key, v)] returns [v];
    every other key keeps its value and no list changes. *)
Theorem set_then_get c key v :
  connected_ c = true ->
  proc_get (snd (proc_set c key v)) key = Some v /\
  (forall k, k <> key -> proc_get (snd (proc_set c key v)) k = proc_get c k) /\
  (forall k, proc_llen (snd (proc_set c key v)) k = proc_llen c k).
Proof.
  intros Hc; unfold proc_set, proc_get, proc_llen; rewrite Hc; simpl. rewrite ?Hc; simpl.
  split; [|split].
  - apply lookup_update_eq.
  - intros k Hk; apply lookup_update_other; exact Hk.
  - intros k; reflexivity.
Qed.

(** On a connected client reached through the public methods, [del(key)]
    returns whether [key] held a string or a list, and afterwards [get(key)]
    is [nullopt] and [llen(key)] is 0, while every other key keeps its
    string value and its list. *)
Theorem del_removes_key c key :
  proc_reachable c -> connected_ c = true ->
  (fst (proc_del c key) = true <->
     proc_get c key <> None \/ lookup key c.(impl_).(lists) <> None) /\
  proc_get (snd (proc_del c key)) key = None /\
  proc_llen (snd (proc_del c key)) key = 0 /\
  (forall k, k <> key ->
     proc_get (snd (proc_del c key)) k = proc_get c k /\
     proc_llen (snd (proc_del c key)) k = proc_llen c k).
Proof.
  intros Hr Hc.
  destruct (reachable_keys_unique c Hr) as [Hkv Hls].
  unfold proc_del, proc_get, proc_llen; rewrite Hc; simpl. rewrite ?Hc; simpl.
  split; [|split; [|split]].
  - destruct (lookup key (kv_store (impl_ c))), (lookup key (lists (impl_ c)));
      simpl; split; intros H;
      first [ reflexivity | discriminate | left; discriminate | right; discriminate
            | destruct H as [H|H]; exfalso; apply H; reflexivity ].
  - apply lookup_remove_same; exact Hkv.
  - rewrite lookup_remove_same by exact Hls; reflexivity.
  - intros k Hk; rewrite !lookup_remove_other by exact Hk; split; reflexivity.
Qed.

End ProcStoreFacts.

(* ------------------------------------------------------------------ *)
(** ** Instances of the theorems on concrete inputs *)

Section Witnesses.
Import TaskQueue.

Lemma task_queue_size_le_capacity_witness :
  exec (create 2) [Enq task_a 0; Enq task_b 0; Enq task_l1 0] []
    (mkQueue [task_b; task_a] 2 false) /\
  (0 < capacity (mkQueue [task_b; task_a] 2 false))%nat /\
  (size (mkQueue [task_b; task_a] 2 false) <= capacity (mkQueue [task_b; task_a] 2 false))%nat.
Proof.
  assert (Hx : exec (create 2) [Enq task_a 0; Enq task_b 0; Enq task_l1 0] []
                 (mkQueue [task_b; task_a] 2 false)).
  { eapply exec_enq; [reflexivity|].
    eapply exec_enq; [reflexivity|].
    eapply exec_enq; [reflexivity|].
    apply exec_nil. }
  split; [exact Hx|]. split; [simpl; lia|].
  apply (task_queue_size_le_capacity 2 _ _ _ Hx). simpl; lia.
Defined.

Lemma unbounded_queue_never_full_witness :
  full (mkQueue [task_a] 0 false) = false /\
  enqueue (mkQueue [task_a] 0 false) task_b 100 = (true, push (mkQueue [task_a] 0 false) task_b).
Proof.
  apply (unbounded_queue_never_full (mkQueue [task_a] 0 false) task_b 100);
    reflexivity.
Defined.

Lemma dequeue_order_by_priority_then_created_at_witness :
  exec (mkQueue [task_a; task_b; task_l1] 10 false) [Deq 0; Deq 0]
    [task_b; task_a] (mkQueue [task_l1] 10 false) /\
  Forall is_deq [Deq 0; Deq 0] /\
  ForallOrdPairs ordered_before [task_b; task_a].
Proof.
  assert (Hx : exec (mkQueue [task_a; task_b; task_l1] 10 false) [Deq 0; Deq 0]
                 [task_b; task_a] (mkQueue [task_l1] 10 false)).
  { eapply exec_deq_some.
    { apply (deq_top (mkQueue [task_a; task_b; task_l1] 10 false) 0
               [task_a] task_b [task_l1]); reflexivity. }
    eapply exec_deq_some.
    { apply (deq_top (mkQueue [task_a; task_l1] 10 false) 0
               [] task_a [task_l1]); reflexivity. }
    apply exec_nil. }
  assert (Hd : Forall is_deq [Deq 0; Deq 0]) by (repeat constructor).
  split; [exact Hx|]. split; [exact Hd|].
  exact (proj2 (dequeue_order_by_priority_then_created_at _ _ _ _ Hx Hd)).
Defined.

Lemma enqueue_keeps_created_at_witness :
  enqueue (mkQueue [task_a] 10 false) task_b 0 = (true, mkQueue [task_b; task_a] 10 false) /\
  dequeue_step (mkQueue [task_b; task_a] 10 false) 0 (Some task_b) (mkQueue [task_a] 10 false) /\
  priority task_b = priority task_a /\
  created_at task_b <= created_at task_a.
Proof.
  assert (He : enqueue (mkQueue [task_a] 10 false) task_b 0 =
               (true, mkQueue [task_b; task_a] 10 false)) by reflexivity.
  assert (Hd : dequeue_step (mkQueue [task_b; task_a] 10 false) 0 (Some task_b)
                 (mkQueue [task_a] 10 false)).
  { apply (deq_top (mkQueue [task_b; task_a] 10 false) 0 [] task_b [task_a]);
      reflexivity. }
  assert (Hp : priority task_b = priority task_a) by reflexivity.
  split; [exact He|]. split; [exact Hd|]. split; [exact Hp|].
  exact (proj2 (enqueue_keeps_created_at (mkQueue [task_a] 10 false) task_b 0 _ He)
           0 task_b _ Hd task_a (or_introl eq_refl) Hp).
Defined.

End Witnesses.

Section CodecWitnesses.
Import TaskCodec.
Local Open Scope string_scope.

Lemma task_json_roundtrip_to_seconds_witness :
  wf_task sample_task /\
  from_json (to_json sample_task) =
    Ok (mkTask (id sample_task) (type sample_task) (payload sample_task)
          (priority sample_task) (status sample_task)
          (retry_count sample_task) (max_retries sample_task)
          (from_time_t (to_time_t (created_at sample_task)))
          (from_time_t (to_time_t (updated_at sample_task)))
          (worker_id sample_task)).
Proof.
  assert (Hw : wf_task sample_task).
  { unfold wf_task, int_range; vm_compute;
      repeat split; (discriminate || reflexivity). }
  split; [exact Hw|].
  exact (proj1 (task_json_roundtrip_to_seconds sample_task Hw)).
Defined.

Lemma from_json_unknown_fields_and_defaults_witness :
  from_json (JObject ([("note", JString "x")] ++ [("id", JString "t1")])) =
  from_json (JObject [("id", JString "t1")]) /\
  (exists t, from_json (JObject [("priority", JFloat 1.5%float)]) = Ok t) /\
  ~ (exists t, from_json (JObject [("priority", JFloat 3e9%float)]) = Ok t).
Proof.
  split; [|split].
  - apply (proj1 (from_json_unknown_fields_and_defaults [("id", JString "t1")])).
    repeat constructor. simpl. intuition discriminate.
  - apply (proj2 (proj1 (proj2
      (from_json_unknown_fields_and_defaults [("priority", JFloat 1.5%float)])))).
    reflexivity.
  - intros H.
    apply (proj1 (proj1 (proj2
      (from_json_unknown_fields_and_defaults [("priority", JFloat 3e9%float)])))) in H.
    discriminate H.
Defined.

Lemma from_json_casts_enum_integers_witness :
  priority (mkTask "t1" "" "" 7 9 0 3 0 0 "") = 7 /\
  status (mkTask "t1" "" "" 7 9 0 3 0 0 "") = 9 /\
  from_json (JObject (("priority", JInt 5000000000) :: ("status", JInt (-3)) ::
                      [("id", JString "t1"); ("priority", JInt 7); ("status", JInt 9)])) =
    Ok (mkTask "t1" "" "" (to_int32 5000000000) (to_int32 (-3)) 0 3 0 0 "").
Proof.
  assert (Ht : from_json (JObject [("id", JString "t1"); ("priority", JInt 7); ("status", JInt 9)])
               = Ok (mkTask "t1" "" "" 7 9 0 3 0 0 "")) by reflexivity.
  destruct (from_json_casts_enum_integers _ _ Ht) as [Hp [Hs Hx]].
  split; [|split].
  - apply (proj2 (Hp 7 eq_refl)); unfold int_range; lia.
  - apply (proj2 (Hs 9 eq_refl)); unfold int_range; lia.
  - exact (Hx 5000000000 (-3)).
Defined.

End CodecWitnesses.

Section SampleWitnesses.
Import SampleCodec.


End SampleWitnesses.

Section BrokerWitnesses.
Import Broker.
Local Open Scope string_scope.

Lemma zpopmax_after_zadd_returns_member_witness :
  fst (client_zpopmax (snd (client_zadd (mkServer true []) "tasks" "task-1" 0.5%float)) "tasks")
    = Some "task-1" /\
  client_zadd (mkServer true []) "tasks" "task-1" PrimFloat.nan = (0, mkServer true []).
Proof.
  split.
  - exact (proj1 (proj2 (proj1 (zpopmax_after_zadd_returns_member
      (mkServer true []) "tasks" "task-1" 0.5%float eq_refl eq_refl) eq_refl))).
  - exact (proj1 (proj2 (zpopmax_after_zadd_returns_member
      (mkServer true []) "tasks" "task-1" PrimFloat.nan eq_refl eq_refl) eq_refl)).
Defined.

End BrokerWitnesses.

Section QueueWitnesses2.
Import TaskQueue.

Lemma enqueue_all_backpressure_witness :
  fst (enqueue_all (mkQueue [task_a] 3 false) [task_b; task_l1; task_h1] 0) =
    [true; true; false].
Proof.
  destruct (enqueue_all_backpressure (mkQueue [task_a] 3 false)
              [task_b; task_l1; task_h1] 0 eq_refl ltac:(simpl; lia)
              ltac:(unfold size; simpl; lia)) as [H _].
  rewrite H; reflexivity.
Defined.

Lemma dequeues_conserve_tasks_witness :
  Permutation [task_a; task_b; task_l1] ([task_b; task_a] ++ [task_l1]).
Proof.
  assert (Hx : exec (mkQueue [task_a; task_b; task_l1] 10 false) [Deq 0; Deq 0]
                 [task_b; task_a] (mkQueue [task_l1] 10 false)).
  { eapply exec_deq_some.
    { apply (deq_top (mkQueue [task_a; task_b; task_l1] 10 false) 0
               [task_a] task_b [task_l1]); reflexivity. }
    eapply exec_deq_some.
    { apply (deq_top (mkQueue [task_a; task_l1] 10 false) 0
               [] task_a [task_l1]); reflexivity. }
    apply exec_nil. }
  exact (dequeues_conserve_tasks _ _ _ _ Hx ltac:(repeat constructor)).
Defined.

Lemma exec_no_task_invented_witness :
  (occ ([mkTask "w1" LOW 4 ""; mkTask "w2" HIGH 9 ""] ++ queue_ (create 10))
       (mkTask "w2" HIGH 9 "") <=
   occ (queue_ (create 10) ++
        enq_tasks [Enq (mkTask "w1" LOW 4 "") 0; Deq 0; Enq (mkTask "w2" HIGH 9 "") 0; Deq 0])
       (mkTask "w2" HIGH 9 ""))%nat.
Proof.
  assert (Hx : exec (create 10)
                 [Enq (mkTask "w1" LOW 4 "") 0; Deq 0; Enq (mkTask "w2" HIGH 9 "") 0; Deq 0]
                 [mkTask "w1" LOW 4 ""; mkTask "w2" HIGH 9 ""] (create 10)).
  { eapply exec_enq; [reflexivity|].
    eapply exec_deq_some.
    { apply (deq_top _ _ [] (mkTask "w1" LOW 4 "") []); reflexivity. }
    eapply exec_enq; [reflexivity|].
    eapply exec_deq_some.
    { apply (deq_top _ _ [] (mkTask "w2" HIGH 9 "") []); reflexivity. }
    apply exec_nil. }
  exact (exec_no_task_invented _ _ _ _ Hx (mkTask "w2" HIGH 9 "")).
Defined.

Lemma shutdown_admits_no_task_witness :
  shutdown_ (mkQueue [] 10 true) = true.
Proof.
  assert (Hx : exec (mkQueue [task_a] 10 true) [Enq task_b 0; Deq 0] [task_a]
                 (mkQueue [] 10 true)).
  { eapply exec_enq; [reflexivity|].
    eapply exec_deq_some.
    { apply (deq_top (mkQueue [task_a] 10 true) 0 [] task_a []); reflexivity. }
    apply exec_nil. }
  exact (proj1 (shutdown_admits_no_task (mkQueue [task_a] 10 true) _ _ _ eq_refl Hx)).
Defined.

End QueueWitnesses2.

Section CreateWitnesses.
Import TaskCodec.
Local Open Scope string_scope.

Lemma created_task_json_roundtrip_witness :
  from_json (to_json (create "6f1c2a9e-0b7d-4e21-9a3f-1c2d3e4f5a6b" 1730000000123456000
                        "compute" "{}" HIGH 3)) =
    Ok (create "6f1c2a9e-0b7d-4e21-9a3f-1c2d3e4f5a6b"
          (from_time_t (to_time_t 1730000000123456000)) "compute" "{}" HIGH 3).
Proof.
  apply created_task_json_roundtrip;
    unfold int_range, HIGH; vm_compute; split; (discriminate || reflexivity).
Defined.

End CreateWitnesses.

Section UuidWitnesses.
Import Uuid.

Lemma generate_uuid_format_witness :
  String.length (generate_uuid (fun i => if Nat.eqb i 15 then 10 else Z.of_nat i mod 16))
    = 36%nat.
Proof.
  apply (generate_uuid_format (fun i => if Nat.eqb i 15 then 10 else Z.of_nat i mod 16)).
  - intros i _ Hi. apply Nat.eqb_neq in Hi; rewrite Hi.
    apply Z.mod_pos_bound; lia.
  - simpl; lia.
Defined.

End UuidWitnesses.

Section ProcWitnesses.
Import Broker.
Local Open Scope string_scope.

Lemma rpush_blpop_fifo_witness :
  fst (proc_blpop_n (proc_rpush_all (snd (proc_connect (proc_create "localhost" 6379)))
                       "distqueue:tasks:pending" ["t1"; "t2"])
         "distqueue:tasks:pending"
         (List.length (List.app (proc_list (snd (proc_connect (proc_create "localhost" 6379)))
                                   "distqueue:tasks:pending") ["t1"; "t2"])))
    = map Some (List.app (proc_list (snd (proc_connect (proc_create "localhost" 6379)))
                            "distqueue:tasks:pending") ["t1"; "t2"]).
Proof.
  exact (proj1 (rpush_blpop_fifo (snd (proc_connect (proc_create "localhost" 6379)))
                  "distqueue:tasks:pending" ["t1"; "t2"] eq_refl)).
Defined.

Lemma rpush_llen_witness :
  proc_llen (snd (proc_rpush (snd (proc_connect (proc_create "localhost" 6379))) "q" "t1")) "q"
    = proc_llen (snd (proc_connect (proc_create "localhost" 6379))) "q" + 1.
Proof.
  exact (proj1 (rpush_llen (snd (proc_connect (proc_create "localhost" 6379))) "q" "t1" eq_refl)).
Defined.

Lemma set_then_get_witness :
  proc_get (snd (proc_set (snd (proc_connect (proc_create "localhost" 6379))) "k" "v")) "k"
    = Some "v".
Proof.
  exact (proj1 (set_then_get (snd (proc_connect (proc_create "localhost" 6379))) "k" "v" eq_refl)).
Defined.

Lemma del_removes_key_witness :
  proc_get (snd (proc_del (snd (proc_set (snd (proc_connect (proc_create "localhost" 6379))) "k" "v")) "k")) "k"
    = None.
Proof.
  exact (proj1 (proj2 (del_removes_key
    (snd (proc_set (snd (proc_connect (proc_create "localhost" 6379))) "k" "v")) "k"
    (reach_set _ _ _ (reach_connect _ (reach_create _ _))) eq_refl))).
Defined.

End ProcWitnesses.
